(** * Pallene Tracer: the shadow call-stack engine of [ptracer.h]

    A shallow embedding of the C header [src/ptracer.h] and the properties of
    its shadow stack: frame push / set-line / pop, the unwind finalizer and the
    lazy, registry-backed initialisation.

    Conventions of the embedding:
    - a C [int] is a [Z]; the arithmetic the code performs on [count] and
      [idx] is checked against the range of a 32-bit [int], and a signed
      overflow (undefined behaviour in C) is reported as a [Fault];
    - the heap block [fnstack->stack] is a [list pt_frame_t]; every access
      [stack[i]] is guarded, and an index outside the block (undefined
      behaviour in C) is reported as [Fault (OutOfBounds i)];
    - the Lua state is an explicit record threaded through a state and
      error monad. *)

From Stdlib Require Import ZArith Lia.
From stdpp Require Import base option list gmap strings.

Open Scope Z_scope.

(** ** Results of C code: a value, or undefined behaviour made explicit *)

Inductive fault : Type :=
  | OutOfBounds (idx : Z)   (* stack[idx] outside the allocated block *)
  | SignedOverflow          (* int arithmetic leaving the range of int *)
  | NullDeref               (* access through NULL or a dead userdatum *)
  | LuaApiMisuse            (* a Lua API call on an unacceptable index/value *)
  | OutOfFuel.              (* a loop of the embedding was cut short *)

Inductive result (A : Type) : Type :=
  | Ok (a : A)
  | Fault (e : fault).

Arguments Ok {A} a.
Arguments Fault {A} e.

Definition bind {A B : Type} (m : result A) (k : A -> result B) : result B :=
  match m with
  | Ok a => k a
  | Fault e => Fault e
  end.

Notation "'do' x <- m ; k" := (bind m (fun x => k))
  (at level 10, x name, m at level 100, k at level 200).

(** ** Macro definitions *)

Definition PALLENE_TRACER_CONTAINER_ENTRY : string := "__PALLENE_TRACER_CONTAINER".
Definition PALLENE_TRACER_FINALIZER_ENTRY : string := "__PALLENE_TRACER_FINALIZER".
Definition PALLENE_TRACER_MAX_CALLSTACK : Z := 100000.

(** Range of the C type [int] (32 bits on every platform where the constant
    100000 fits an [int]). *)
Definition INT_MAX : Z := 2147483647.
Definition INT_MIN : Z := -2147483648.

(** [x + 1] and [x - 1] on [int]. *)
Definition int_incr (x : Z) : result Z :=
  if x <? INT_MAX then Ok (x + 1) else Fault SignedOverflow.

Definition int_decr (x : Z) : result Z :=
  if INT_MIN <? x then Ok (x - 1) else Fault SignedOverflow.

(** ** Data structures *)

Inductive frame_type_t : Type :=
  | PALLENE_TRACER_FRAME_TYPE_C
  | PALLENE_TRACER_FRAME_TYPE_LUA.

Definition frame_type_eqb (a b : frame_type_t) : bool :=
  match a, b with
  | PALLENE_TRACER_FRAME_TYPE_C, PALLENE_TRACER_FRAME_TYPE_C => true
  | PALLENE_TRACER_FRAME_TYPE_LUA, PALLENE_TRACER_FRAME_TYPE_LUA => true
  | _, _ => false
  end.

Record pt_fn_details_t : Type := {
  fn_name : string;
  filename : string;
}.

(** C functions that can be handed to Lua: the two private ones of the
    header, and any entry point of a client module. *)
Inductive lua_CFunction : Type :=
  | fn_pallene_tracer_finalizer
  | fn_pallene_tracer_free_resources
  | fn_extern (id : positive).

(** The anonymous union [shared]. *)
Inductive shared_t : Type :=
  | details (d : pt_fn_details_t)
  | c_fnptr (f : lua_CFunction).

Record pt_frame_t : Type := {
  type : frame_type_t;
  line : Z;
  shared : shared_t;
}.

Record pt_fnstack_t : Type := {
  stack : list pt_frame_t;
  count : Z;
}.

(** Data-structure helper macros.  A designated initialiser zeroes the
    members it does not name, so both frames start at line 0. *)
Definition PALLENE_TRACER_FN_DETAILS (name fname : string) : pt_fn_details_t :=
  {| fn_name := name; filename := fname |}.

Definition PALLENE_TRACER_LUA_FRAME (fnptr : lua_CFunction) : pt_frame_t :=
  {| type := PALLENE_TRACER_FRAME_TYPE_LUA; line := 0; shared := c_fnptr fnptr |}.

Definition PALLENE_TRACER_C_FRAME (detl : pt_fn_details_t) : pt_frame_t :=
  {| type := PALLENE_TRACER_FRAME_TYPE_C; line := 0; shared := details detl |}.

(** ** Guarded array accesses *)

(** [a[idx]] read. *)
Definition array_read (a : list pt_frame_t) (idx : Z) : result pt_frame_t :=
  if 0 <=? idx then
    match a !! Z.to_nat idx with
    | Some f => Ok f
    | None => Fault (OutOfBounds idx)
    end
  else Fault (OutOfBounds idx).

(** [a[idx] = f]. *)
Definition array_write (a : list pt_frame_t) (idx : Z) (f : pt_frame_t)
  : result (list pt_frame_t) :=
  if (0 <=? idx) && (idx <? Z.of_nat (length a)) then Ok (<[Z.to_nat idx := f]> a)
  else Fault (OutOfBounds idx).

(** [malloc(n * sizeof(pt_frame_t))]: a block of [n] frames whose contents
    are indeterminate; [mem] gives what the block happens to hold.  The
    code does not test the pointer it gets, and the embedding takes the
    allocation to succeed. *)
Definition malloc_frames (mem : nat -> pt_frame_t) (n : Z) : list pt_frame_t :=
  map mem (seq 0 (Z.to_nat n)).

(** ** The three inline operations *)

(** [pallene_tracer_frameenter]: write the frame unless the stack is full,
    then [count++]. *)
Definition pallene_tracer_frameenter (fnstack : pt_fnstack_t) (frame : pt_frame_t)
  : result pt_fnstack_t :=
  do stk <- (if count fnstack <? PALLENE_TRACER_MAX_CALLSTACK
             then array_write (stack fnstack) (count fnstack) frame
             else Ok (stack fnstack));
  do cnt <- int_incr (count fnstack);
  Ok {| stack := stk; count := cnt |}.

(** [pallene_tracer_setline]: [stack[count - 1].line = line] when
    [count != 0]. *)
Definition pallene_tracer_setline (fnstack : pt_fnstack_t) (ln : Z)
  : result pt_fnstack_t :=
  if negb (count fnstack =? 0) then
    do idx <- int_decr (count fnstack);
    do f <- array_read (stack fnstack) idx;
    do stk <- array_write (stack fnstack) idx
                {| type := type f; line := ln; shared := shared f |};
    Ok {| stack := stk; count := count fnstack |}
  else Ok fnstack.

(** [pallene_tracer_frameexit]: [count -= (count > 0)].  The subtrahend is 1
    only for a positive [count], so the subtraction cannot overflow. *)
Definition pallene_tracer_frameexit (fnstack : pt_fnstack_t) : result pt_fnstack_t :=
  Ok {| stack := stack fnstack;
        count := count fnstack - Z.b2z (0 <? count fnstack) |}.

(** ** The unwind finalizer *)

(** The loop [while (stack[idx].type != LUA) idx--;].  One unit of fuel pays
    for one evaluation of the loop condition; [None] means the fuel ran out
    before the loop was left. *)
Fixpoint finalizer_loop (fuel : nat) (stk : list pt_frame_t) (idx : Z)
  : option (result Z) :=
  match fuel with
  | O => None
  | S fuel' =>
      match array_read stk idx with
      | Fault e => Some (Fault e)
      | Ok f =>
          if frame_type_eqb (type f) PALLENE_TRACER_FRAME_TYPE_LUA
          then Some (Ok idx)
          else match int_decr idx with
               | Fault e => Some (Fault e)
               | Ok idx' => finalizer_loop fuel' stk idx'
               end
      end
  end.

(** Fuel that always suffices: the loop tests [idx], [idx - 1], ... and the
    guarded read stops it below 0 at the latest. *)
Definition finalizer_fuel (idx : Z) : nat := S (Z.to_nat (idx + 1)).

(** Body of [_pallene_tracer_finalizer], on the userdatum that
    [lua_touserdata(L, lua_upvalueindex(1))] points to, run with [fuel]. *)
Definition finalizer_with_fuel (fuel : nat) (fnstack : pt_fnstack_t)
  : option (result pt_fnstack_t) :=
  match int_decr (count fnstack) with
  | Fault e => Some (Fault e)
  | Ok idx0 =>
      match finalizer_loop fuel (stack fnstack) idx0 with
      | None => None
      | Some (Fault e) => Some (Fault e)
      | Some (Ok idx) => Some (Ok {| stack := stack fnstack; count := idx |})
      end
  end.

Definition _pallene_tracer_finalizer (fnstack : pt_fnstack_t)
  : option (result pt_fnstack_t) :=
  finalizer_with_fuel (finalizer_fuel (count fnstack - 1)) fnstack.

(** The finalizer as one step of a run.  [OutOfFuel] stands for a scan that
    [finalizer_fuel] would not cover; [_pallene_tracer_finalizer_total] below
    shows there is none. *)
Definition finalizer_result (fnstack : pt_fnstack_t) : result pt_fnstack_t :=
  match _pallene_tracer_finalizer fnstack with
  | Some r => r
  | None => Fault OutOfFuel
  end.

(** ** Sequences of engine operations *)

Inductive engine_op : Type :=
  | OpPush (frame : pt_frame_t)
  | OpSetLine (ln : Z)
  | OpPop
  | OpFinalizer.

Definition step (o : engine_op) (fnstack : pt_fnstack_t) : result pt_fnstack_t :=
  match o with
  | OpPush frame => pallene_tracer_frameenter fnstack frame
  | OpSetLine ln => pallene_tracer_setline fnstack ln
  | OpPop => pallene_tracer_frameexit fnstack
  | OpFinalizer => finalizer_result fnstack
  end.

Fixpoint run (ops : list engine_op) (fnstack : pt_fnstack_t) : result pt_fnstack_t :=
  match ops with
  | [] => Ok fnstack
  | o :: ops' => do s <- step o fnstack; run ops' s
  end.

(** The userdatum as [pallene_tracer_init] fills it in: a block of
    [PALLENE_TRACER_MAX_CALLSTACK] frames and [count = 0]. *)
Definition fresh_fnstack (mem : nat -> pt_frame_t) : pt_fnstack_t :=
  {| stack := malloc_frames mem PALLENE_TRACER_MAX_CALLSTACK; count := 0 |}.

(** A shadow stack as the engine keeps it: the block has the allocated size
    and [count] is a non-negative [int]. *)
Definition wf_fnstack (s : pt_fnstack_t) : Prop :=
  Z.of_nat (length (stack s)) = PALLENE_TRACER_MAX_CALLSTACK /\
  0 <= count s <= INT_MAX.

(** States reachable from a fresh stack through the three inline operations. *)
Inductive reachable : pt_fnstack_t -> Prop :=
  | reachable_init mem : reachable (fresh_fnstack mem)
  | reachable_frameenter s frame s' :
      reachable s -> pallene_tracer_frameenter s frame = Ok s' -> reachable s'
  | reachable_setline s ln s' :
      reachable s -> pallene_tracer_setline s ln = Ok s' -> reachable s'
  | reachable_frameexit s s' :
      reachable s -> pallene_tracer_frameexit s = Ok s' -> reachable s'.

(** Well-nested sequences of pushes and pops: every pop closes a push of the
    same sequence.  [nesting ops d] follows the number of open pushes. *)
Fixpoint nesting (ops : list engine_op) (open : nat) : option nat :=
  match ops with
  | [] => Some open
  | OpPush _ :: ops' => nesting ops' (S open)
  | OpPop :: ops' =>
      match open with
      | O => None
      | S open' => nesting ops' open'
      end
  | _ :: _ => None
  end.

Definition well_nested (ops : list engine_op) : Prop := nesting ops 0 = Some 0%nat.

(** Largest number of pushes open at once while [ops] runs from [open]. *)
Fixpoint peak (ops : list engine_op) (open : nat) : nat :=
  match ops with
  | [] => open
  | OpPush _ :: ops' => Nat.max open (peak ops' (S open))
  | OpPop :: ops' => Nat.max open (peak ops' (Nat.pred open))
  | _ :: ops' => Nat.max open (peak ops' open)
  end.

(** The frames the finalizer scans: [i] is the topmost index below [count]
    holding a frame of type LUA. *)
Definition topmost_lua (s : pt_fnstack_t) (i : Z) : Prop :=
  0 <= i < count s /\
  (exists f, stack s !! Z.to_nat i = Some f /\ type f = PALLENE_TRACER_FRAME_TYPE_LUA) /\
  (forall j f, i < j < count s -> stack s !! Z.to_nat j = Some f ->
               type f = PALLENE_TRACER_FRAME_TYPE_C).

(** Some frame below [count] is of type LUA. *)
Definition has_lua_below (s : pt_fnstack_t) : Prop :=
  exists j f, 0 <= j < count s /\ stack s !! Z.to_nat j = Some f /\
              type f = PALLENE_TRACER_FRAME_TYPE_LUA.

(** Frames and block contents used where a concrete input is called for. *)
Definition sample_details : pt_fn_details_t :=
  PALLENE_TRACER_FN_DETAILS "fib" "fib.c".
Definition sample_c_frame : pt_frame_t := PALLENE_TRACER_C_FRAME sample_details.
Definition sample_lua_frame : pt_frame_t := PALLENE_TRACER_LUA_FRAME (fn_extern 1).
Definition sample_mem : nat -> pt_frame_t := fun _ => sample_c_frame.

(** A fresh stack after one push of [sample_lua_frame]. *)
Definition one_frame_stack : pt_fnstack_t :=
  {| stack := <[0%nat := sample_lua_frame]>
                (malloc_frames sample_mem PALLENE_TRACER_MAX_CALLSTACK);
     count := 1 |}.

(** A full block with a LUA frame at the bottom and C frames above it, and
    one more push counted than the block can hold. *)
Definition overfull_stack : pt_fnstack_t :=
  {| stack := sample_lua_frame
                :: replicate (Z.to_nat (PALLENE_TRACER_MAX_CALLSTACK - 1)) sample_c_frame;
     count := PALLENE_TRACER_MAX_CALLSTACK + 1 |}.

(** Two excursions, the inner one two C calls deep, on a block of five
    slots. *)
Definition two_excursions_stack : pt_fnstack_t :=
  {| stack := [sample_lua_frame; sample_c_frame; sample_lua_frame; sample_c_frame;
               sample_c_frame];
     count := 5 |}.

(** ** The host VM *)

Module Lua.

Abbreviation addr := positive.

#[warnings="-register-all"]
Inductive lua_value : Type :=
  | LNil
  | LUserdata (p : addr)
  | LTable (t : addr)
  | LCFunction (f : lua_CFunction)
  | LCClosure (f : lua_CFunction) (upvalues : list lua_value).

Record lua_table : Type := {
  fields : gmap string lua_value;
  table_meta : option addr;
}.

(** A full userdatum: its block (here always a [pt_fnstack_t], [None]
    until the block is filled in) and its metatable. *)
Record lua_udata : Type := {
  block : option pt_fnstack_t;
  udata_meta : option addr;
}.

(** Modelled from the spec: the host VM ([lua.h], [lauxlib.h]) is not part
    of the repository.  The state keeps what the tracer uses of it: the
    persistent per-instance storage (the registry, keyed by name), the
    objects of the heap, and the value stack of the running C function,
    top first.  The calls below do what the Lua 5.4 reference manual says
    of them, on this state. *)
Record lua_State : Type := {
  registry : gmap string lua_value;
  tables : gmap addr lua_table;
  udatas : gmap addr lua_udata;
  vstack : list lua_value;
}.

Definition lua (A : Type) : Type := lua_State -> result (A * lua_State).

Definition ret {A : Type} (a : A) : lua A := fun L => Ok (a, L).

Definition fail {A : Type} (e : fault) : lua A := fun _ => Fault e.

Definition bindL {A B : Type} (m : lua A) (k : A -> lua B) : lua B :=
  fun L => match m L with
           | Ok (a, L') => k a L'
           | Fault e => Fault e
           end.

Notation "x <~ m ;; k" := (bindL m (fun x => k))
  (at level 100, m at next level, right associativity).
Notation "m ;; k" := (bindL m (fun _ => k))
  (at level 100, right associativity).

Definition LUAI_MAXSTACK : Z := 1000000.
Definition LUA_REGISTRYINDEX : Z := - LUAI_MAXSTACK - 1000.

(** Modelled from the spec: the value at an acceptable stack index,
    positive from the bottom of the frame, negative from its top. *)
Definition index2value (L : lua_State) (idx : Z) : option lua_value :=
  if 0 <? idx then rev (vstack L) !! Z.to_nat (idx - 1)
  else if (LUA_REGISTRYINDEX <? idx) && (idx <? 0)
       then vstack L !! Z.to_nat (- idx - 1)
       else None.

Inductive table_ref : Type :=
  | RegistryRef
  | TableRef (t : addr).

Definition index2table (L : lua_State) (idx : Z) : option table_ref :=
  if idx =? LUA_REGISTRYINDEX then Some RegistryRef
  else match index2value L idx with
       | Some (LTable t) => Some (TableRef t)
       | _ => None
       end.

(** An absent key reads as nil. *)
Definition rawget (m : gmap string lua_value) (k : string) : lua_value :=
  default LNil (m !! k).

(** Storing nil removes the key. *)
Definition rawset (m : gmap string lua_value) (k : string) (v : lua_value)
  : gmap string lua_value :=
  match v with
  | LNil => delete k m
  | _ => <[k := v]> m
  end.

Definition push (v : lua_value) : lua unit :=
  fun L => Ok (tt, {| registry := registry L; tables := tables L;
                      udatas := udatas L; vstack := v :: vstack L |}).

Definition pop : lua lua_value :=
  fun L => match vstack L with
           | v :: rest => Ok (v, {| registry := registry L; tables := tables L;
                                    udatas := udatas L; vstack := rest |})
           | [] => Fault LuaApiMisuse
           end.

(** Modelled from the spec: [lua_getfield(L, idx, k)] pushes [t[k]] for the
    table [t] at [idx]. *)
Definition lua_getfield (idx : Z) (k : string) : lua unit :=
  fun L => match index2table L idx with
           | Some RegistryRef => push (rawget (registry L) k) L
           | Some (TableRef t) =>
               match tables L !! t with
               | Some tb => push (rawget (fields tb) k) L
               | None => Fault LuaApiMisuse
               end
           | None => Fault LuaApiMisuse
           end.

(** Modelled from the spec: [lua_isnil(L, idx)]. *)
Definition lua_isnil (idx : Z) : lua bool :=
  fun L => match index2value L idx with
           | Some LNil => Ok (true, L)
           | Some _ => Ok (false, L)
           | None => Fault LuaApiMisuse
           end.

(** Modelled from the spec: [lua_newuserdata(L, size)] creates a userdatum
    at an unused address, pushes it and returns the address of its block. *)
Definition lua_newuserdata : lua addr :=
  fun L => let p := fresh (dom (udatas L)) in
           Ok (p, {| registry := registry L; tables := tables L;
                     udatas := <[p := {| block := None; udata_meta := None |}]> (udatas L);
                     vstack := LUserdata p :: vstack L |}).

(** Modelled from the spec: [lua_newtable(L)] pushes a new empty table. *)
Definition lua_newtable : lua unit :=
  fun L => let t := fresh (dom (tables L)) in
           Ok (tt, {| registry := registry L;
                      tables := <[t := {| fields := ∅; table_meta := None |}]> (tables L);
                      udatas := udatas L;
                      vstack := LTable t :: vstack L |}).

(** Modelled from the spec: [lua_pushcfunction], [lua_pushnil],
    [lua_pushvalue]. *)
Definition lua_pushcfunction (f : lua_CFunction) : lua unit := push (LCFunction f).

Definition lua_pushnil : lua unit := push LNil.

Definition lua_pushvalue (idx : Z) : lua unit :=
  fun L => match index2value L idx with
           | Some v => push v L
           | None => Fault LuaApiMisuse
           end.

(** Modelled from the spec: [lua_pushcclosure(L, fn, n)] pops [n] values,
    the first pushed being the first upvalue, and pushes the closure. *)
Definition lua_pushcclosure (f : lua_CFunction) (n : Z) : lua unit :=
  fun L => if (0 <=? n) && (n <=? Z.of_nat (length (vstack L))) then
             let ups := rev (take (Z.to_nat n) (vstack L)) in
             let v := if n =? 0 then LCFunction f else LCClosure f ups in
             Ok (tt, {| registry := registry L; tables := tables L;
                        udatas := udatas L;
                        vstack := v :: drop (Z.to_nat n) (vstack L) |})
           else Fault LuaApiMisuse.

(** Modelled from the spec: [lua_setfield(L, idx, k)] does [t[k] = v] for
    the table [t] at [idx] and the value [v] on top, and pops [v]. *)
Definition lua_setfield (idx : Z) (k : string) : lua unit :=
  fun L => match index2table L idx, vstack L with
           | Some RegistryRef, v :: rest =>
               Ok (tt, {| registry := rawset (registry L) k v; tables := tables L;
                          udatas := udatas L; vstack := rest |})
           | Some (TableRef t), v :: rest =>
               match tables L !! t with
               | Some tb =>
                   Ok (tt, {| registry := registry L;
                              tables := <[t := {| fields := rawset (fields tb) k v;
                                                  table_meta := table_meta tb |}]> (tables L);
                              udatas := udatas L; vstack := rest |})
               | None => Fault LuaApiMisuse
               end
           | _, _ => Fault LuaApiMisuse
           end.

(** Modelled from the spec: [lua_setmetatable(L, idx)] pops a table or nil
    and makes it the metatable of the value at [idx]. *)
Definition lua_setmetatable (idx : Z) : lua unit :=
  fun L =>
    match vstack L with
    | top :: rest =>
        let mt := match top with
                  | LTable t => Some (Some t)
                  | LNil => Some None
                  | _ => None
                  end in
        match mt, index2value L idx with
        | Some m, Some (LUserdata p) =>
            match udatas L !! p with
            | Some u =>
                Ok (tt, {| registry := registry L; tables := tables L;
                           udatas := <[p := {| block := block u; udata_meta := m |}]> (udatas L);
                           vstack := rest |})
            | None => Fault LuaApiMisuse
            end
        | Some m, Some (LTable t) =>
            match tables L !! t with
            | Some tb =>
                Ok (tt, {| registry := registry L;
                           tables := <[t := {| fields := fields tb; table_meta := m |}]> (tables L);
                           udatas := udatas L; vstack := rest |})
            | None => Fault LuaApiMisuse
            end
        | _, _ => Fault LuaApiMisuse
        end
    | [] => Fault LuaApiMisuse
    end.

(** Modelled from the spec: [lua_touserdata(L, idx)] is the block address
    of a full userdatum and NULL ([None]) for any other value. *)
Definition lua_touserdata (idx : Z) : lua (option addr) :=
  fun L => match index2value L idx with
           | Some (LUserdata p) => Ok (Some p, L)
           | Some _ => Ok (None, L)
           | None => Fault LuaApiMisuse
           end.

(** [*fnstack = s] through a pointer to a userdatum block. *)
Definition store_fnstack (p : addr) (s : pt_fnstack_t) : lua unit :=
  fun L => match udatas L !! p with
           | Some u =>
               Ok (tt, {| registry := registry L; tables := tables L;
                          udatas := <[p := {| block := Some s; udata_meta := udata_meta u |}]> (udatas L);
                          vstack := vstack L |})
           | None => Fault NullDeref
           end.

(** [*fnstack] as seen through a pointer ([None] is NULL). *)
Definition fnstack_at (L : lua_State) (p : option addr) : option pt_fnstack_t :=
  match p with
  | Some a => match udatas L !! a with
              | Some u => block u
              | None => None
              end
  | None => None
  end.

(** An engine operation applied through a pointer: the userdatum is
    updated in place, so every holder of the pointer sees the effect. *)
Definition through (p : option addr) (op : pt_fnstack_t -> result pt_fnstack_t)
  : lua unit :=
  fun L => match p with
           | Some a =>
               match fnstack_at L p with
               | Some s =>
                   match op s with
                   | Ok s' => store_fnstack a s' L
                   | Fault e => Fault e
                   end
               | None => Fault NullDeref
               end
           | None => Fault NullDeref
           end.

(** [pallene_tracer_init].  [PT_DEBUG] is the build-time switch; [mem] is
    what the block returned by [malloc] holds.  The result is the returned
    pointer. *)
Definition pallene_tracer_init (PT_DEBUG : bool) (mem : nat -> pt_frame_t)
  : lua (option addr) :=
  if PT_DEBUG then
    lua_getfield LUA_REGISTRYINDEX PALLENE_TRACER_CONTAINER_ENTRY ;;
    isnil <~ lua_isnil (-1) ;;
    if isnil : bool then
      fnstack <~ lua_newuserdata ;;
      store_fnstack fnstack
        {| stack := malloc_frames mem PALLENE_TRACER_MAX_CALLSTACK; count := 0 |} ;;
      lua_newtable ;;
      lua_pushcfunction fn_pallene_tracer_free_resources ;;
      lua_setfield (-2) "__gc" ;;
      lua_setmetatable (-2) ;;
      lua_newtable ;;
      lua_newtable ;;
      lua_pushvalue (-3) ;;
      lua_pushcclosure fn_pallene_tracer_finalizer 1 ;;
      lua_setfield (-2) "__close" ;;
      lua_setmetatable (-2) ;;
      lua_setfield LUA_REGISTRYINDEX PALLENE_TRACER_FINALIZER_ENTRY ;;
      lua_setfield LUA_REGISTRYINDEX PALLENE_TRACER_CONTAINER_ENTRY ;;
      lua_getfield LUA_REGISTRYINDEX PALLENE_TRACER_FINALIZER_ENTRY ;;
      ret (Some fnstack)
    else
      fnstack <~ lua_touserdata (-1) ;;
      lua_getfield LUA_REGISTRYINDEX PALLENE_TRACER_FINALIZER_ENTRY ;;
      ret fnstack
  else
    lua_pushnil ;;
    ret None.

(** The shadow stack is published: the reserved registry key holds the
    userdatum whose block is at [p]. *)
Definition published (L : lua_State) (p : addr) : Prop :=
  registry L !! PALLENE_TRACER_CONTAINER_ENTRY = Some (LUserdata p) /\
  is_Some (udatas L !! p).

(** A small host state: nothing registered, nothing allocated. *)
Definition empty_state : lua_State :=
  {| registry := ∅; tables := ∅; udatas := ∅; vstack := [] |}.

End Lua.

(** ** The calls on the way, and what the shadow stack keeps of them *)

(** The native calls that are active, outermost first, as the pushes, pops
    and set-lines of a run produce them on a stack without a bound. *)
Definition calls_step (o : engine_op) (act : list pt_frame_t) : list pt_frame_t :=
  match o with
  | OpPush frame => act ++ [frame]
  | OpSetLine ln =>
      match act !! (length act - 1)%nat with
      | Some f => <[(length act - 1)%nat :=
                      {| type := type f; line := ln; shared := shared f |}]> act
      | None => act
      end
  | OpPop => take (length act - 1)%nat act
  | OpFinalizer => act
  end.

Fixpoint calls_after (ops : list engine_op) (act : list pt_frame_t) : list pt_frame_t :=
  match ops with
  | [] => act
  | o :: ops' => calls_after ops' (calls_step o act)
  end.

(** [s] keeps the calls [act]: [count] is their number, and the block holds
    those of them that have a slot. *)
Definition represents (act : list pt_frame_t) (s : pt_fnstack_t) : Prop :=
  count s = Z.of_nat (length act) /\
  (forall j : nat, (j < length act)%nat -> Z.of_nat j < PALLENE_TRACER_MAX_CALLSTACK ->
                   stack s !! j = act !! j).

(** A run the inline operations can take from the calls [act]: a push finds
    [count] below [INT_MAX], a set-line finds the top call inside the
    block, and the finalizer does not occur. *)
Fixpoint tracked (ops : list engine_op) (act : list pt_frame_t) : bool :=
  match ops with
  | [] => true
  | o :: ops' =>
      match o with
      | OpPush _ => Z.of_nat (length act) <? INT_MAX
      | OpSetLine _ => Z.of_nat (length act) <=? PALLENE_TRACER_MAX_CALLSTACK
      | OpPop => true
      | OpFinalizer => false
      end && tracked ops' (calls_step o act)
  end.

(** What native code does between the call the host made into it and an
    error: calls of C functions (pushes of frames of type C), set-lines, and
    returns from the C calls made so far.  [native_run ops d] follows the
    number of C calls that are open. *)
Fixpoint native_run (ops : list engine_op) (open : nat) : option nat :=
  match ops with
  | [] => Some open
  | OpPush frame :: ops' =>
      if frame_type_eqb (type frame) PALLENE_TRACER_FRAME_TYPE_C
      then native_run ops' (S open) else None
  | OpSetLine _ :: ops' => native_run ops' open
  | OpPop :: ops' =>
      match open with
      | O => None
      | S open' => native_run ops' open'
      end
  | OpFinalizer :: _ => None
  end.

(** ** The C functions the host calls back *)

Module LuaCall.

Import Lua.

(** Modelled from the spec: [lua_upvalueindex(i)] of [lua.h]. *)
Definition lua_upvalueindex (i : Z) : Z := LUA_REGISTRYINDEX - i.

(** Modelled from the spec: [lua_touserdata(L, idx)] inside a C closure with
    the upvalues [upvalues]; an upvalue the closure does not have reads as
    none, and gives NULL. *)
Definition lua_touserdata_in (upvalues : list lua_value) (idx : Z) : lua (option addr) :=
  if idx <? LUA_REGISTRYINDEX then
    fun L => match upvalues !! Z.to_nat (LUA_REGISTRYINDEX - idx - 1) with
             | Some (LUserdata p) => Ok (Some p, L)
             | _ => Ok (None, L)
             end
  else lua_touserdata idx.

(** The C function [_pallene_tracer_finalizer(lua_State *L)], run as a
    closure with [upvalues]: the userdatum is fetched from upvalue 1, its
    stack is trimmed by the scan above, and 0 results are returned. *)
Definition _pallene_tracer_finalizer_cfunction (upvalues : list lua_value) : lua Z :=
  fnstack <~ lua_touserdata_in upvalues (lua_upvalueindex 1) ;;
  through fnstack finalizer_result ;;
  ret 0.

(** [free(fnstack->stack)]: the block is gone, and the userdatum keeps
    [count] and a pointer with no slot left to access, here the empty list.
    A block of [PALLENE_TRACER_MAX_CALLSTACK] frames is never empty, so the
    empty list is a block already freed, which must not be freed again. *)
Definition free_stack (s : pt_fnstack_t) : result pt_fnstack_t :=
  match stack s with
  | [] => Fault NullDeref
  | _ :: _ => Ok {| stack := []; count := count s |}
  end.

(** [_pallene_tracer_free_resources]: frees the stack of the userdatum at
    index 1. *)
Definition _pallene_tracer_free_resources : lua Z :=
  fnstack <~ lua_touserdata 1 ;;
  through fnstack free_stack ;;
  ret 0.

(** Modelled from the spec: the host runs a C function on a value stack of
    its own, holding the arguments in order, and drops that stack when the
    function returns. *)
Definition in_frame {A : Type} (args : list lua_value) (body : lua A) : lua A :=
  fun L =>
    match body {| registry := registry L; tables := tables L; udatas := udatas L;
                  vstack := rev args |} with
    | Ok (a, L') => Ok (a, {| registry := registry L'; tables := tables L';
                              udatas := udatas L'; vstack := vstack L |})
    | Fault e => Fault e
    end.

(** Modelled from the spec: a call of a C function value.  The two C
    functions of the header are the ones that can be run. *)
Definition call_value (f : lua_value) (args : list lua_value) : lua Z :=
  match f with
  | LCClosure fn_pallene_tracer_finalizer upvalues =>
      in_frame args (_pallene_tracer_finalizer_cfunction upvalues)
  | LCFunction fn_pallene_tracer_finalizer =>
      in_frame args (_pallene_tracer_finalizer_cfunction [])
  | LCClosure fn_pallene_tracer_free_resources _
  | LCFunction fn_pallene_tracer_free_resources =>
      in_frame args _pallene_tracer_free_resources
  | _ => fail LuaApiMisuse
  end.

(** Modelled from the spec: the metamethod of a value for an event, nil when
    there is none. *)
Definition metamethod (L : lua_State) (v : lua_value) (event : string) : lua_value :=
  let mt := match v with
            | LTable t => match tables L !! t with
                          | Some tb => table_meta tb
                          | None => None
                          end
            | LUserdata p => match udatas L !! p with
                             | Some u => udata_meta u
                             | None => None
                             end
            | _ => None
            end in
  match mt with
  | Some m => match tables L !! m with
              | Some tb => rawget (fields tb) event
              | None => LNil
              end
  | None => LNil
  end.

(** Modelled from the spec: a to-be-closed value goes out of scope, and the
    host calls its [__close] metamethod with the value and the error object
    (nil here). *)
Definition close_value (v : lua_value) : lua Z :=
  fun L => call_value (metamethod L v "__close") [v; LNil] L.

(** Modelled from the spec: a userdatum is collected, and the host calls its
    [__gc] metamethod with it. *)
Definition collect_value (v : lua_value) : lua Z :=
  fun L => call_value (metamethod L v "__gc") [v] L.

(** A host state in which the reserved key is taken by a value of the
    client. *)
Definition foreign_state : lua_State :=
  {| registry := <[PALLENE_TRACER_CONTAINER_ENTRY := LCFunction (fn_extern 1)]> ∅;
     tables := ∅; udatas := ∅; vstack := [] |}.

End LuaCall.

(** * Properties *)

(** ** Arithmetic and array accesses *)

Lemma MAX_CALLSTACK_val : PALLENE_TRACER_MAX_CALLSTACK = 100000.
Proof. reflexivity. Qed.

Lemma int_incr_ok (x : Z) : x < INT_MAX -> int_incr x = Ok (x + 1).
Proof.
  intros Hx. unfold int_incr.
  destruct (Z.ltb_spec x INT_MAX) as [_ | Hge]; [reflexivity | lia].
Qed.

Lemma int_incr_overflow (x : Z) : INT_MAX <= x -> int_incr x = Fault SignedOverflow.
Proof.
  intros Hx. unfold int_incr.
  destruct (Z.ltb_spec x INT_MAX) as [Hlt | _]; [lia | reflexivity].
Qed.

Lemma int_decr_ok (x : Z) : INT_MIN < x -> int_decr x = Ok (x - 1).
Proof.
  intros Hx. unfold int_decr.
  destruct (Z.ltb_spec INT_MIN x) as [_ | Hge]; [reflexivity | lia].
Qed.

Lemma int_decr_inv (x y : Z) : int_decr x = Ok y -> y = x - 1.
Proof.
  unfold int_decr. destruct (INT_MIN <? x); intros Heq; congruence.
Qed.

Lemma int_incr_inv (x y : Z) : int_incr x = Ok y -> y = x + 1.
Proof.
  unfold int_incr. destruct (x <? INT_MAX); intros Heq; congruence.
Qed.

Lemma array_read_ok (a : list pt_frame_t) (idx : Z) (f : pt_frame_t) :
  0 <= idx -> a !! Z.to_nat idx = Some f -> array_read a idx = Ok f.
Proof.
  intros Hidx Hlook. unfold array_read.
  destruct (Z.leb_spec 0 idx) as [_ | Hneg]; [| lia].
  rewrite Hlook. reflexivity.
Qed.

Lemma array_read_negative (a : list pt_frame_t) (idx : Z) :
  idx < 0 -> array_read a idx = Fault (OutOfBounds idx).
Proof.
  intros Hidx. unfold array_read.
  destruct (Z.leb_spec 0 idx) as [Hpos | _]; [lia | reflexivity].
Qed.

Lemma array_read_beyond (a : list pt_frame_t) (idx : Z) :
  Z.of_nat (length a) <= idx -> array_read a idx = Fault (OutOfBounds idx).
Proof.
  intros Hidx. unfold array_read.
  destruct (Z.leb_spec 0 idx) as [Hpos | _]; [| reflexivity].
  rewrite (lookup_ge_None_2 a (Z.to_nat idx)) by lia. reflexivity.
Qed.

Lemma array_read_inv (a : list pt_frame_t) (idx : Z) (f : pt_frame_t) :
  array_read a idx = Ok f -> 0 <= idx /\ a !! Z.to_nat idx = Some f.
Proof.
  unfold array_read. destruct (Z.leb_spec 0 idx) as [Hpos | Hneg]; [| discriminate].
  destruct (a !! Z.to_nat idx) as [g |] eqn:Hlook; [| discriminate].
  intros Heq. injection Heq as ->. split; [assumption | reflexivity].
Qed.

Lemma array_write_ok (a : list pt_frame_t) (idx : Z) (f : pt_frame_t) :
  0 <= idx < Z.of_nat (length a) ->
  array_write a idx f = Ok (<[Z.to_nat idx := f]> a).
Proof.
  intros [Hlo Hhi]. unfold array_write.
  destruct (Z.leb_spec 0 idx) as [_ | Hneg]; [| lia].
  destruct (Z.ltb_spec idx (Z.of_nat (length a))) as [_ | Hge]; [reflexivity | lia].
Qed.

Lemma array_write_inv (a a' : list pt_frame_t) (idx : Z) (f : pt_frame_t) :
  array_write a idx f = Ok a' ->
  0 <= idx < Z.of_nat (length a) /\ a' = <[Z.to_nat idx := f]> a.
Proof.
  unfold array_write.
  destruct (Z.leb_spec 0 idx) as [Hlo | Hneg]; [| discriminate].
  destruct (Z.ltb_spec idx (Z.of_nat (length a))) as [Hhi | Hge]; [| discriminate].
  simpl. intros Heq. injection Heq as <-. split; [lia | reflexivity].
Qed.

Lemma length_malloc_frames (mem : nat -> pt_frame_t) (n : Z) :
  0 <= n -> Z.of_nat (length (malloc_frames mem n)) = n.
Proof.
  intros Hn. unfold malloc_frames.
  rewrite length_map, length_seq. lia.
Qed.

Lemma length_block (mem : nat -> pt_frame_t) :
  Z.of_nat (length (malloc_frames mem PALLENE_TRACER_MAX_CALLSTACK)) = 100000.
Proof.
  rewrite length_malloc_frames; rewrite MAX_CALLSTACK_val; lia.
Qed.

Lemma wf_fresh_fnstack (mem : nat -> pt_frame_t) : wf_fnstack (fresh_fnstack mem).
Proof.
  split.
  - apply length_malloc_frames. rewrite MAX_CALLSTACK_val. lia.
  - unfold fresh_fnstack, INT_MAX. cbn [count]. lia.
Qed.

Lemma wf_with_count (mem : nat -> pt_frame_t) (c : Z) :
  0 <= c <= INT_MAX ->
  wf_fnstack {| stack := malloc_frames mem PALLENE_TRACER_MAX_CALLSTACK; count := c |}.
Proof.
  intros Hc. split.
  - apply length_malloc_frames. rewrite MAX_CALLSTACK_val. lia.
  - exact Hc.
Qed.

(** ** [pallene_tracer_frameenter] *)

Lemma frameenter_below_capacity (s : pt_fnstack_t) (frame : pt_frame_t) :
  wf_fnstack s -> count s < PALLENE_TRACER_MAX_CALLSTACK ->
  pallene_tracer_frameenter s frame =
    Ok {| stack := <[Z.to_nat (count s) := frame]> (stack s); count := count s + 1 |}.
Proof.
  intros [Hlen Hcnt] Hlt. unfold pallene_tracer_frameenter.
  destruct (Z.ltb_spec (count s) PALLENE_TRACER_MAX_CALLSTACK) as [_ | Hge]; [| lia].
  rewrite array_write_ok by lia. cbn [bind].
  rewrite int_incr_ok by (rewrite MAX_CALLSTACK_val in Hlt; unfold INT_MAX; lia).
  reflexivity.
Qed.

Lemma frameenter_at_capacity (s : pt_fnstack_t) (frame : pt_frame_t) :
  PALLENE_TRACER_MAX_CALLSTACK <= count s -> count s < INT_MAX ->
  pallene_tracer_frameenter s frame = Ok {| stack := stack s; count := count s + 1 |}.
Proof.
  intros Hge Hlt. unfold pallene_tracer_frameenter.
  destruct (Z.ltb_spec (count s) PALLENE_TRACER_MAX_CALLSTACK) as [Hlt' | _]; [lia |].
  cbn [bind]. rewrite int_incr_ok by assumption. reflexivity.
Qed.

Lemma frameenter_overflow (s : pt_fnstack_t) (frame : pt_frame_t) :
  INT_MAX <= count s -> pallene_tracer_frameenter s frame = Fault SignedOverflow.
Proof.
  intros Hge. unfold pallene_tracer_frameenter.
  destruct (Z.ltb_spec (count s) PALLENE_TRACER_MAX_CALLSTACK) as [Hlt | _].
  - rewrite MAX_CALLSTACK_val in Hlt. unfold INT_MAX in Hge. lia.
  - cbn [bind]. rewrite int_incr_overflow by assumption. reflexivity.
Qed.

Lemma frameenter_inv (s s' : pt_fnstack_t) (frame : pt_frame_t) :
  pallene_tracer_frameenter s frame = Ok s' ->
  count s' = count s + 1 /\ length (stack s') = length (stack s).
Proof.
  unfold pallene_tracer_frameenter.
  destruct (count s <? PALLENE_TRACER_MAX_CALLSTACK).
  - destruct (array_write (stack s) (count s) frame) as [a |] eqn:Hw; [| discriminate].
    cbn [bind]. destruct (int_incr (count s)) as [c |] eqn:Hc; [| discriminate].
    cbn [bind]. intros Heq. injection Heq as <-. cbn [count stack].
    apply int_incr_inv in Hc. apply array_write_inv in Hw as [_ ->].
    rewrite length_insert. split; [assumption | reflexivity].
  - cbn [bind]. destruct (int_incr (count s)) as [c |] eqn:Hc; [| discriminate].
    cbn [bind]. intros Heq. injection Heq as <-. cbn [count stack].
    apply int_incr_inv in Hc. split; [assumption | reflexivity].
Qed.

Lemma frameenter_wf (s : pt_fnstack_t) (frame : pt_frame_t) :
  wf_fnstack s -> count s < INT_MAX ->
  exists s', pallene_tracer_frameenter s frame = Ok s' /\ wf_fnstack s' /\
             count s' = count s + 1.
Proof.
  intros Hwf Hlt. pose proof Hwf as [Hlen Hcnt].
  destruct (Z.lt_ge_cases (count s) PALLENE_TRACER_MAX_CALLSTACK) as [Hb | Hb].
  - eexists. split; [apply frameenter_below_capacity; assumption |].
    split; [| reflexivity]. split; cbn [stack count]; [| lia].
    rewrite length_insert. assumption.
  - eexists. split; [apply frameenter_at_capacity; assumption |].
    split; [| reflexivity]. split; cbn [stack count]; [assumption | lia].
Qed.

(** Pushing the frames [fs] one after the other onto a block [blk] that
    already holds the frames [pre]: the frames land in the block as long as
    there is room, and [count] follows every push. *)
Lemma run_pushes (blk : list pt_frame_t) (fs pre : list pt_frame_t) :
  Z.of_nat (length blk) = PALLENE_TRACER_MAX_CALLSTACK ->
  Z.of_nat (length pre) + Z.of_nat (length fs) <= INT_MAX ->
  run (map OpPush fs)
      {| stack := take (length blk) (pre ++ drop (length pre) blk);
         count := Z.of_nat (length pre) |}
  = Ok {| stack := take (length blk) ((pre ++ fs) ++ drop (length (pre ++ fs)) blk);
          count := Z.of_nat (length (pre ++ fs)) |}.
Proof.
  intros Hblk. revert pre.
  induction fs as [| f fs IH]; intros pre Hsum.
  - cbn [map run]. rewrite app_nil_r. reflexivity.
  - cbn [map run step]. cbn [length] in Hsum.
    assert (Hstep :
      pallene_tracer_frameenter
        {| stack := take (length blk) (pre ++ drop (length pre) blk);
           count := Z.of_nat (length pre) |} f
      = Ok {| stack := take (length blk) ((pre ++ [f]) ++ drop (length (pre ++ [f])) blk);
              count := Z.of_nat (length (pre ++ [f])) |}).
    { rewrite length_app. cbn [length].
      destruct (Z.lt_ge_cases (Z.of_nat (length pre)) PALLENE_TRACER_MAX_CALLSTACK)
        as [Hroom | Hfull].
      - assert (Hlt : (length pre < length blk)%nat) by lia.
        destruct (lookup_lt_is_Some_2 blk (length pre) Hlt) as [x Hx].
        rewrite frameenter_below_capacity; cbn [stack count].
        + f_equal. f_equal; [| lia].
          rewrite Nat2Z.id.
          rewrite (take_ge (pre ++ drop (length pre) blk))
            by (rewrite length_app, length_drop; lia).
          rewrite (take_ge ((pre ++ [f]) ++ drop (length pre + 1) blk))
            by (rewrite !length_app, length_drop; cbn [length]; lia).
          rewrite insert_app_r_alt by lia.
          rewrite Nat.sub_diag.
          rewrite (drop_S blk x (length pre) Hx). cbn [insert list_insert].
          rewrite <- app_assoc. cbn [app].
          replace (length pre + 1)%nat with (S (length pre)) by lia.
          reflexivity.
        + split; cbn [stack count]; [| lia].
          rewrite length_take, length_app, length_drop. lia.
        + assumption.
      - rewrite frameenter_at_capacity; cbn [stack count]; [| assumption | lia].
        f_equal. f_equal; [| lia].
        rewrite (take_app_le pre) by lia.
        rewrite <- app_assoc. rewrite (take_app_le pre) by lia.
        reflexivity. }
    rewrite Hstep. cbn [bind].
    rewrite IH.
    + replace ((pre ++ [f]) ++ fs) with (pre ++ f :: fs)
        by (rewrite <- app_assoc; reflexivity).
      reflexivity.
    + rewrite length_app. cbn [length]. lia.
Qed.

Lemma run_pushes_fresh (mem : nat -> pt_frame_t) (fs : list pt_frame_t) :
  Z.of_nat (length fs) <= INT_MAX ->
  run (map OpPush fs) (fresh_fnstack mem)
  = Ok {| stack := take (length (malloc_frames mem PALLENE_TRACER_MAX_CALLSTACK))
                        (fs ++ drop (length fs)
                                    (malloc_frames mem PALLENE_TRACER_MAX_CALLSTACK));
          count := Z.of_nat (length fs) |}.
Proof.
  intros Hlen.
  pose proof (length_malloc_frames mem PALLENE_TRACER_MAX_CALLSTACK) as Hblk.
  rewrite MAX_CALLSTACK_val in Hblk at 1. specialize (Hblk ltac:(lia)).
  pose proof (run_pushes (malloc_frames mem PALLENE_TRACER_MAX_CALLSTACK) fs [] Hblk)
    as Hrun.
  cbn [app length drop] in Hrun.
  rewrite firstn_all in Hrun.
  apply Hrun. lia.
Qed.

Lemma run_pushes_fresh_full (mem : nat -> pt_frame_t) (fs : list pt_frame_t) :
  PALLENE_TRACER_MAX_CALLSTACK <= Z.of_nat (length fs) <= INT_MAX ->
  run (map OpPush fs) (fresh_fnstack mem)
  = Ok {| stack := take (Z.to_nat PALLENE_TRACER_MAX_CALLSTACK) fs;
          count := Z.of_nat (length fs) |}.
Proof.
  intros [Hlo Hhi]. rewrite run_pushes_fresh by assumption.
  pose proof (length_malloc_frames mem PALLENE_TRACER_MAX_CALLSTACK) as Hblk.
  rewrite MAX_CALLSTACK_val in Hblk at 1. specialize (Hblk ltac:(lia)).
  rewrite drop_ge by lia. rewrite app_nil_r.
  replace (length (malloc_frames mem PALLENE_TRACER_MAX_CALLSTACK))
    with (Z.to_nat PALLENE_TRACER_MAX_CALLSTACK) by lia.
  reflexivity.
Qed.

Lemma run_app (ops1 ops2 : list engine_op) (s : pt_fnstack_t) :
  run (ops1 ++ ops2) s = do s1 <- run ops1 s; run ops2 s1.
Proof.
  revert s. induction ops1 as [| o ops1 IH]; intros s.
  - reflexivity.
  - cbn [app run]. destruct (step o s) as [s1 | e]; cbn [bind]; [apply IH | reflexivity].
Qed.

(** ** [pallene_tracer_setline] *)

Lemma setline_in_bounds (s : pt_fnstack_t) (ln : Z) (f : pt_frame_t) :
  0 < count s ->
  stack s !! Z.to_nat (count s - 1) = Some f ->
  pallene_tracer_setline s ln =
    Ok {| stack := <[Z.to_nat (count s - 1) :=
                       {| type := type f; line := ln; shared := shared f |}]> (stack s);
          count := count s |}.
Proof.
  intros Hpos Hlook. unfold pallene_tracer_setline.
  destruct (Z.eqb_spec (count s) 0) as [Hz | _]; [lia |]. cbn [negb].
  rewrite int_decr_ok by (unfold INT_MIN; lia). cbn [bind].
  rewrite (array_read_ok _ _ f) by (lia || assumption). cbn [bind].
  rewrite array_write_ok; [reflexivity |].
  apply lookup_lt_Some in Hlook. lia.
Qed.

Lemma setline_empty (s : pt_fnstack_t) (ln : Z) :
  count s = 0 -> pallene_tracer_setline s ln = Ok s.
Proof.
  intros Hz. unfold pallene_tracer_setline. rewrite Hz. reflexivity.
Qed.

Lemma setline_beyond (s : pt_fnstack_t) (ln : Z) :
  Z.of_nat (length (stack s)) < count s ->
  pallene_tracer_setline s ln = Fault (OutOfBounds (count s - 1)).
Proof.
  intros Hgt. unfold pallene_tracer_setline.
  destruct (Z.eqb_spec (count s) 0) as [Hz | _]; [lia |]. cbn [negb].
  rewrite int_decr_ok by (unfold INT_MIN; lia). cbn [bind].
  rewrite array_read_beyond by lia. reflexivity.
Qed.

Lemma setline_inv (s s' : pt_fnstack_t) (ln : Z) :
  pallene_tracer_setline s ln = Ok s' ->
  count s' = count s /\
  length (stack s') = length (stack s) /\
  (forall j : nat, j <> Z.to_nat (count s - 1) -> stack s' !! j = stack s !! j) /\
  (count s = 0 -> s' = s).
Proof.
  unfold pallene_tracer_setline.
  destruct (Z.eqb_spec (count s) 0) as [Hz | Hnz]; cbn [negb].
  - intros Heq. injection Heq as <-. repeat split; reflexivity.
  - destruct (int_decr (count s)) as [idx |] eqn:Hidx; [| discriminate]. cbn [bind].
    apply int_decr_inv in Hidx. subst idx.
    destruct (array_read (stack s) (count s - 1)) as [f |]; [| discriminate].
    cbn [bind].
    destruct (array_write (stack s) (count s - 1) _) as [a |] eqn:Hw; [| discriminate].
    cbn [bind]. intros Heq. injection Heq as <-. cbn [stack count].
    apply array_write_inv in Hw as [_ ->].
    split; [reflexivity |]. split; [apply length_insert |].
    split; [| intros Hz; contradiction].
    intros j Hj. apply list_lookup_insert_ne. congruence.
Qed.

(** ** The unwind finalizer *)

(** More fuel never changes the outcome of a scan that was left. *)
Lemma finalizer_loop_more_fuel (fuel extra : nat) (stk : list pt_frame_t) (idx : Z)
    (r : result Z) :
  finalizer_loop fuel stk idx = Some r ->
  finalizer_loop (fuel + extra) stk idx = Some r.
Proof.
  revert idx. induction fuel as [| fuel IH]; intros idx; [discriminate |].
  cbn [finalizer_loop Nat.add].
  destruct (array_read stk idx) as [f | e]; [| trivial].
  destruct (frame_type_eqb (type f) PALLENE_TRACER_FRAME_TYPE_LUA); [trivial |].
  destruct (int_decr idx) as [idx' | e]; [apply IH | trivial].
Qed.

(** The scan always leaves the loop: the guarded read ends it below index 0
    at the latest. *)
Lemma finalizer_loop_total (fuel : nat) (stk : list pt_frame_t) (idx : Z) :
  (Z.to_nat (idx + 1) < fuel)%nat ->
  exists r, finalizer_loop fuel stk idx = Some r.
Proof.
  revert idx. induction fuel as [| fuel IH]; intros idx Hfuel; [lia |].
  cbn [finalizer_loop].
  destruct (array_read stk idx) as [f | e] eqn:Hread; [| eauto].
  apply array_read_inv in Hread as [Hpos _].
  destruct (frame_type_eqb (type f) PALLENE_TRACER_FRAME_TYPE_LUA); [eauto |].
  destruct (int_decr idx) as [idx' | e] eqn:Hdecr; [| eauto].
  apply int_decr_inv in Hdecr. subst idx'. apply IH. lia.
Qed.

Lemma _pallene_tracer_finalizer_total (s : pt_fnstack_t) :
  exists r, _pallene_tracer_finalizer s = Some r.
Proof.
  unfold _pallene_tracer_finalizer, finalizer_with_fuel.
  destruct (int_decr (count s)) as [idx0 | e] eqn:Hdecr; [| eauto].
  apply int_decr_inv in Hdecr. subst idx0.
  destruct (finalizer_loop_total (finalizer_fuel (count s - 1)) (stack s) (count s - 1))
    as [r Hr].
  - unfold finalizer_fuel. lia.
  - rewrite Hr. destruct r; eauto.
Qed.

(** Descending over [n] frames of type C down to a frame of type LUA at
    index [i] takes exactly [n + 1] evaluations of the loop condition. *)
Lemma finalizer_loop_found (n : nat) (stk : list pt_frame_t) (i : Z) :
  0 <= i ->
  (exists f, stk !! Z.to_nat i = Some f /\ type f = PALLENE_TRACER_FRAME_TYPE_LUA) ->
  (forall j, i < j <= i + Z.of_nat n ->
     exists f, stk !! Z.to_nat j = Some f /\ type f = PALLENE_TRACER_FRAME_TYPE_C) ->
  finalizer_loop (S n) stk (i + Z.of_nat n) = Some (Ok i) /\
  finalizer_loop n stk (i + Z.of_nat n) = None.
Proof.
  intros Hi [fl [Hfl Htl]]. induction n as [| n IH]; intros Habove.
  - replace (i + Z.of_nat 0) with i by lia. split; [| reflexivity].
    cbn [finalizer_loop]. rewrite (array_read_ok _ _ fl) by assumption.
    rewrite Htl. reflexivity.
  - destruct (Habove (i + Z.of_nat (S n))) as [f [Hf Htf]]; [lia |].
    assert (Hnext : forall fuel,
      finalizer_loop (S fuel) stk (i + Z.of_nat (S n)) =
      finalizer_loop fuel stk (i + Z.of_nat n)).
    { intros fuel. cbn [finalizer_loop].
      rewrite (array_read_ok _ _ f) by (lia || assumption).
      rewrite Htf. cbn [frame_type_eqb].
      rewrite int_decr_ok by (unfold INT_MIN; lia).
      f_equal. lia. }
    rewrite !Hnext. apply IH. intros j Hj. apply Habove. lia.
Qed.

(** Descending over [n] frames of type C with no frame of type LUA below
    them runs off the bottom of the block. *)
Lemma finalizer_loop_underflow (n : nat) (stk : list pt_frame_t) :
  (forall j, 0 <= j < Z.of_nat n ->
     exists f, stk !! Z.to_nat j = Some f /\ type f = PALLENE_TRACER_FRAME_TYPE_C) ->
  finalizer_loop (S n) stk (Z.of_nat n - 1) = Some (Fault (OutOfBounds (-1))).
Proof.
  induction n as [| n IH]; intros Hall.
  - cbn [finalizer_loop]. rewrite array_read_negative by lia. reflexivity.
  - destruct (Hall (Z.of_nat n)) as [f [Hf Htf]]; [lia |].
    replace (Z.of_nat (S n) - 1) with (Z.of_nat n) by lia.
    cbn [finalizer_loop].
    rewrite (array_read_ok _ _ f) by (lia || assumption).
    rewrite Htf. cbn [frame_type_eqb].
    rewrite int_decr_ok by (unfold INT_MIN; lia).
    apply IH. intros j Hj. apply Hall. lia.
Qed.

(** A stack with a frame of type LUA below [count] has a topmost one. *)
Lemma topmost_lua_exists_nat (stk : list pt_frame_t) (n : nat) :
  (exists (j : nat) f, (j < n)%nat /\ stk !! j = Some f /\
                       type f = PALLENE_TRACER_FRAME_TYPE_LUA) ->
  exists i : nat, (i < n)%nat /\
    (exists f, stk !! i = Some f /\ type f = PALLENE_TRACER_FRAME_TYPE_LUA) /\
    (forall (j : nat) f, (i < j < n)%nat -> stk !! j = Some f ->
                         type f = PALLENE_TRACER_FRAME_TYPE_C).
Proof.
  induction n as [| n IH]; intros [j [f [Hj [Hf Htf]]]]; [lia |].
  destruct (stk !! n) as [g |] eqn:Hg.
  - destruct (type g) eqn:Htg.
    + destruct (Nat.eq_dec j n) as [-> | Hne]; [congruence |].
      destruct IH as [i [Hi [Hlua Habove]]]; [exists j, f; split; [lia | auto] |].
      exists i. split; [lia |]. split; [assumption |].
      intros k h Hk Hh. destruct (Nat.eq_dec k n) as [-> | Hkn].
      * congruence.
      * apply (Habove k h); [lia | assumption].
    + exists n. split; [lia |]. split; [eauto |]. intros k h Hk. lia.
  - destruct (Nat.eq_dec j n) as [-> | Hne]; [congruence |].
    destruct IH as [i [Hi [Hlua Habove]]]; [exists j, f; split; [lia | auto] |].
    exists i. split; [lia |]. split; [assumption |].
    intros k h Hk Hh. destruct (Nat.eq_dec k n) as [-> | Hkn].
    + congruence.
    + apply (Habove k h); [lia | assumption].
Qed.

Lemma topmost_lua_exists (s : pt_fnstack_t) :
  has_lua_below s -> exists i, topmost_lua s i.
Proof.
  intros [j [f [Hj [Hf Htf]]]].
  destruct (topmost_lua_exists_nat (stack s) (Z.to_nat (count s)))
    as [i [Hi [Hlua Habove]]].
  - exists (Z.to_nat j), f. split; [lia | auto].
  - exists (Z.of_nat i). split; [lia |]. split.
    + rewrite Nat2Z.id. assumption.
    + intros k h Hk Hh. apply (Habove (Z.to_nat k) h); [lia | assumption].
Qed.

Lemma topmost_lua_unique (s : pt_fnstack_t) (i i' : Z) :
  topmost_lua s i -> topmost_lua s i' -> i = i'.
Proof.
  intros [Hi [[f [Hf Htf]] Ha]] [Hi' [[f' [Hf' Htf']] Ha']].
  destruct (Z.lt_trichotomy i i') as [Hlt | [Heq | Hgt]]; [| assumption |].
  - specialize (Ha i' f' ltac:(lia) Hf'). congruence.
  - specialize (Ha' i f ltac:(lia) Hf). congruence.
Qed.

(** The scan from a stack whose topmost LUA frame is at [i], all of it
    inside the block. *)
Lemma finalizer_with_fuel_found (s : pt_fnstack_t) (i : Z) (fuel : nat) :
  topmost_lua s i ->
  count s <= Z.of_nat (length (stack s)) ->
  (Z.to_nat (count s - i) <= fuel)%nat ->
  finalizer_with_fuel fuel s = Some (Ok {| stack := stack s; count := i |}).
Proof.
  intros [Hi [Hlua Habove]] Hcap Hfuel. unfold finalizer_with_fuel.
  rewrite int_decr_ok by (unfold INT_MIN; lia).
  destruct (finalizer_loop_found (Z.to_nat (count s - 1 - i)) (stack s) i)
    as [Hfound _]; [lia | assumption | |].
  - intros j Hj.
    destruct (lookup_lt_is_Some_2 (stack s) (Z.to_nat j)) as [f Hf]; [lia |].
    exists f. split; [assumption |]. apply (Habove j f); [lia | assumption].
  - replace (i + Z.of_nat (Z.to_nat (count s - 1 - i))) with (count s - 1) in Hfound by lia.
    apply (finalizer_loop_more_fuel _ (fuel - S (Z.to_nat (count s - 1 - i)))) in Hfound.
    replace (S (Z.to_nat (count s - 1 - i)) + (fuel - S (Z.to_nat (count s - 1 - i))))%nat
      with fuel in Hfound by lia.
    rewrite Hfound. reflexivity.
Qed.

Lemma finalizer_with_fuel_short (s : pt_fnstack_t) (i : Z) (fuel : nat) :
  topmost_lua s i ->
  count s <= Z.of_nat (length (stack s)) ->
  (fuel < Z.to_nat (count s - i))%nat ->
  finalizer_with_fuel fuel s = None.
Proof.
  intros [Hi [Hlua Habove]] Hcap Hfuel. unfold finalizer_with_fuel.
  rewrite int_decr_ok by (unfold INT_MIN; lia).
  destruct (finalizer_loop_found (Z.to_nat (count s - 1 - i)) (stack s) i)
    as [_ Hshort]; [lia | assumption | |].
  - intros j Hj.
    destruct (lookup_lt_is_Some_2 (stack s) (Z.to_nat j)) as [f Hf]; [lia |].
    exists f. split; [assumption |]. apply (Habove j f); [lia | assumption].
  - replace (i + Z.of_nat (Z.to_nat (count s - 1 - i))) with (count s - 1) in Hshort by lia.
    destruct (finalizer_loop fuel (stack s) (count s - 1)) as [r |] eqn:Hloop; [| reflexivity].
    apply (finalizer_loop_more_fuel _ (Z.to_nat (count s - 1 - i) - fuel)) in Hloop.
    replace (fuel + (Z.to_nat (count s - 1 - i) - fuel))%nat
      with (Z.to_nat (count s - 1 - i)) in Hloop by lia.
    congruence.
Qed.

(** The scan from a [count] beyond the block starts outside the block. *)
Lemma finalizer_with_fuel_beyond (s : pt_fnstack_t) (fuel : nat) :
  Z.of_nat (length (stack s)) < count s ->
  finalizer_with_fuel (S fuel) s = Some (Fault (OutOfBounds (count s - 1))).
Proof.
  intros Hgt. unfold finalizer_with_fuel.
  rewrite int_decr_ok by (unfold INT_MIN; lia).
  cbn [finalizer_loop]. rewrite array_read_beyond by lia. reflexivity.
Qed.

Lemma finalizer_found (s : pt_fnstack_t) (i : Z) :
  topmost_lua s i ->
  count s <= Z.of_nat (length (stack s)) ->
  _pallene_tracer_finalizer s = Some (Ok {| stack := stack s; count := i |}).
Proof.
  intros Htop Hcap. apply finalizer_with_fuel_found; [assumption | assumption |].
  destruct Htop as [Hi _]. unfold finalizer_fuel. lia.
Qed.

Lemma finalizer_beyond (s : pt_fnstack_t) :
  Z.of_nat (length (stack s)) < count s ->
  _pallene_tracer_finalizer s = Some (Fault (OutOfBounds (count s - 1))).
Proof.
  intros Hgt. unfold _pallene_tracer_finalizer, finalizer_fuel.
  apply finalizer_with_fuel_beyond. assumption.
Qed.

(** No frame of type LUA below [count]: the scan reads [stack[-1]]. *)
Lemma finalizer_underflow (s : pt_fnstack_t) :
  0 <= count s <= Z.of_nat (length (stack s)) ->
  (forall j f, 0 <= j < count s -> stack s !! Z.to_nat j = Some f ->
               type f = PALLENE_TRACER_FRAME_TYPE_C) ->
  _pallene_tracer_finalizer s = Some (Fault (OutOfBounds (-1))).
Proof.
  intros Hcnt Hall. unfold _pallene_tracer_finalizer, finalizer_with_fuel.
  rewrite int_decr_ok by (unfold INT_MIN; lia).
  pose proof (finalizer_loop_underflow (Z.to_nat (count s)) (stack s)) as Hloop.
  replace (Z.of_nat (Z.to_nat (count s)) - 1) with (count s - 1) in Hloop by lia.
  unfold finalizer_fuel.
  replace (Z.to_nat (count s - 1 + 1)) with (Z.to_nat (count s)) by lia.
  rewrite Hloop; [reflexivity |].
  intros j Hj.
  destruct (lookup_lt_is_Some_2 (stack s) (Z.to_nat j)) as [f Hf]; [lia |].
  exists f. split; [assumption |]. apply (Hall j f); [lia | assumption].
Qed.

Lemma frameexit_saturates_aux (s : pt_fnstack_t) :
  exists s', pallene_tracer_frameexit s = Ok s' /\ stack s' = stack s /\
             (0 <= count s -> 0 <= count s').
Proof.
  eexists. split; [reflexivity |]. cbn [stack count]. split; [reflexivity |].
  destruct (0 <? count s) eqn:Hpos; cbn [Z.b2z]; [apply Z.ltb_lt in Hpos |]; lia.
Qed.

(** * The specification, property by property *)

(** ** Pop *)

(** C8: [pallene_tracer_frameexit] always returns; it takes 1 off a positive
    [count], leaves a [count] of 0 at 0, never makes a non-negative [count]
    negative, and leaves the frames alone. *)
Theorem frameexit_saturates (s : pt_fnstack_t) :
  exists s', pallene_tracer_frameexit s = Ok s' /\
    stack s' = stack s /\
    (0 < count s -> count s' = count s - 1) /\
    (count s = 0 -> count s' = 0) /\
    (0 <= count s -> 0 <= count s').
Proof.
  eexists. split; [reflexivity |]. cbn [stack count].
  split; [reflexivity |].
  destruct (Z.ltb_spec 0 (count s)) as [Hpos | Hnpos]; cbn [Z.b2z];
    repeat split; intros; lia.
Qed.

(** ** Set-line *)

(** C9: with [1 <= count <= capacity], [pallene_tracer_setline] changes only
    the [line] of the frame at [count - 1]: [count], every other slot, and
    the [type] and [shared] members of that frame stay as they were. *)
Theorem setline_frame_effect (s : pt_fnstack_t) (ln : Z) :
  Z.of_nat (length (stack s)) = PALLENE_TRACER_MAX_CALLSTACK ->
  1 <= count s <= PALLENE_TRACER_MAX_CALLSTACK ->
  exists f f' s',
    stack s !! Z.to_nat (count s - 1) = Some f /\
    pallene_tracer_setline s ln = Ok s' /\
    count s' = count s /\
    length (stack s') = length (stack s) /\
    (forall j : nat, j <> Z.to_nat (count s - 1) -> stack s' !! j = stack s !! j) /\
    stack s' !! Z.to_nat (count s - 1) = Some f' /\
    type f' = type f /\ shared f' = shared f /\ line f' = ln.
Proof.
  intros Hlen Hcnt.
  destruct (lookup_lt_is_Some_2 (stack s) (Z.to_nat (count s - 1))) as [f Hf]; [lia |].
  exists f, {| type := type f; line := ln; shared := shared f |}.
  eexists. split; [exact Hf |].
  split; [apply (setline_in_bounds s ln f); [lia | exact Hf] |].
  cbn [stack count type shared line].
  split; [reflexivity |]. split; [apply length_insert |].
  split; [intros j Hj; apply list_lookup_insert_ne; congruence |].
  split; [apply list_lookup_insert_eq; lia |].
  repeat split.
Qed.

Lemma setline_frame_effect_witness :
  exists f f' s',
    malloc_frames sample_mem PALLENE_TRACER_MAX_CALLSTACK !! Z.to_nat (1 - 1) = Some f /\
    pallene_tracer_setline
      {| stack := malloc_frames sample_mem PALLENE_TRACER_MAX_CALLSTACK; count := 1 |} 42
      = Ok s' /\
    count s' = 1 /\
    length (stack s') = length (malloc_frames sample_mem PALLENE_TRACER_MAX_CALLSTACK) /\
    (forall j : nat, j <> Z.to_nat (1 - 1) ->
       stack s' !! j = malloc_frames sample_mem PALLENE_TRACER_MAX_CALLSTACK !! j) /\
    stack s' !! Z.to_nat (1 - 1) = Some f' /\
    type f' = type f /\ shared f' = shared f /\ line f' = 42.
Proof.
  apply (setline_frame_effect
           {| stack := malloc_frames sample_mem PALLENE_TRACER_MAX_CALLSTACK; count := 1 |} 42).
  - apply length_malloc_frames. rewrite MAX_CALLSTACK_val. lia.
  - cbn [count]. rewrite MAX_CALLSTACK_val. lia.
Defined.

(** C7, as the code has it: with [count] within the block,
    [pallene_tracer_setline] overwrites the [line] of the frame at
    [count - 1] when [count > 0], and returns the stack as it was when
    [count = 0]. *)
Theorem setline_within_capacity (s : pt_fnstack_t) (ln : Z) :
  Z.of_nat (length (stack s)) = PALLENE_TRACER_MAX_CALLSTACK ->
  0 <= count s <= PALLENE_TRACER_MAX_CALLSTACK ->
  (0 < count s ->
     exists f, stack s !! Z.to_nat (count s - 1) = Some f /\
       pallene_tracer_setline s ln =
         Ok {| stack := <[Z.to_nat (count s - 1) :=
                            {| type := type f; line := ln; shared := shared f |}]> (stack s);
               count := count s |}) /\
  (count s = 0 -> pallene_tracer_setline s ln = Ok s).
Proof.
  intros Hlen Hcnt. split.
  - intros Hpos.
    destruct (lookup_lt_is_Some_2 (stack s) (Z.to_nat (count s - 1))) as [f Hf]; [lia |].
    exists f. split; [exact Hf |]. apply setline_in_bounds; assumption.
  - apply setline_empty.
Qed.

Lemma setline_within_capacity_witness :
  (0 < 1 ->
     exists f, malloc_frames sample_mem PALLENE_TRACER_MAX_CALLSTACK !! Z.to_nat (1 - 1)
               = Some f /\
       pallene_tracer_setline
         {| stack := malloc_frames sample_mem PALLENE_TRACER_MAX_CALLSTACK; count := 1 |} 42 =
         Ok {| stack := <[Z.to_nat (1 - 1) :=
                            {| type := type f; line := 42; shared := shared f |}]>
                          (malloc_frames sample_mem PALLENE_TRACER_MAX_CALLSTACK);
               count := 1 |}) /\
  (1 = 0 ->
     pallene_tracer_setline
       {| stack := malloc_frames sample_mem PALLENE_TRACER_MAX_CALLSTACK; count := 1 |} 42
     = Ok {| stack := malloc_frames sample_mem PALLENE_TRACER_MAX_CALLSTACK; count := 1 |}).
Proof.
  apply (setline_within_capacity
           {| stack := malloc_frames sample_mem PALLENE_TRACER_MAX_CALLSTACK; count := 1 |} 42).
  - apply length_malloc_frames. rewrite MAX_CALLSTACK_val. lia.
  - cbn [count]. rewrite MAX_CALLSTACK_val. lia.
Defined.

(** C7 as stated fails one frame past the capacity: after 100001 pushes
    [count] is 100001, there is no frame at index [count - 1] = 100000, and
    [pallene_tracer_setline] writes outside the block. *)
Lemma setline_past_capacity :
  run (map OpPush (replicate (Z.to_nat (PALLENE_TRACER_MAX_CALLSTACK + 1)) sample_c_frame))
      (fresh_fnstack sample_mem)
  = Ok {| stack := take (Z.to_nat PALLENE_TRACER_MAX_CALLSTACK)
                        (replicate (Z.to_nat (PALLENE_TRACER_MAX_CALLSTACK + 1))
                                   sample_c_frame);
          count := 100001 |} /\
  take (Z.to_nat PALLENE_TRACER_MAX_CALLSTACK)
       (replicate (Z.to_nat (PALLENE_TRACER_MAX_CALLSTACK + 1)) sample_c_frame)
    !! Z.to_nat (100001 - 1) = None /\
  pallene_tracer_setline
    {| stack := take (Z.to_nat PALLENE_TRACER_MAX_CALLSTACK)
                     (replicate (Z.to_nat (PALLENE_TRACER_MAX_CALLSTACK + 1))
                                sample_c_frame);
       count := 100001 |} 42
  = Fault (OutOfBounds 100000).
Proof.
  assert (Hlen : Z.of_nat (length (replicate (Z.to_nat (PALLENE_TRACER_MAX_CALLSTACK + 1))
                                             sample_c_frame)) = 100001).
  { rewrite length_replicate, MAX_CALLSTACK_val. lia. }
  split; [| split].
  - rewrite run_pushes_fresh_full.
    + rewrite Hlen. reflexivity.
    + rewrite Hlen, MAX_CALLSTACK_val. unfold INT_MAX. lia.
  - apply lookup_ge_None_2. rewrite length_take. rewrite MAX_CALLSTACK_val in *. lia.
  - rewrite setline_beyond; cbn [stack count].
    + reflexivity.
    + rewrite length_take. rewrite MAX_CALLSTACK_val in *. lia.
Qed.

(** ** Push *)

(** C2, as the code has it: while [count] has room to grow in its [int],
    [pallene_tracer_frameenter] adds exactly 1 to [count]; below the capacity
    it writes the frame at index [count], at or above it the block is left
    as it was.  So [capacity + k] pushes onto a fresh stack end with
    [count = capacity + k] and a block holding the first [capacity] frames
    pushed, and nothing else. *)
Theorem frameenter_counts_every_push (s : pt_fnstack_t) (frame : pt_frame_t)
    (mem : nat -> pt_frame_t) (fs : list pt_frame_t) (k : Z) :
  wf_fnstack s -> count s < INT_MAX ->
  0 < k -> Z.of_nat (length fs) = PALLENE_TRACER_MAX_CALLSTACK + k ->
  PALLENE_TRACER_MAX_CALLSTACK + k <= INT_MAX ->
  (exists s', pallene_tracer_frameenter s frame = Ok s' /\
     count s' = count s + 1 /\
     (count s < PALLENE_TRACER_MAX_CALLSTACK ->
        stack s' = <[Z.to_nat (count s) := frame]> (stack s) /\
        stack s' !! Z.to_nat (count s) = Some frame) /\
     (PALLENE_TRACER_MAX_CALLSTACK <= count s -> stack s' = stack s)) /\
  run (map OpPush fs) (fresh_fnstack mem)
    = Ok {| stack := take (Z.to_nat PALLENE_TRACER_MAX_CALLSTACK) fs;
            count := PALLENE_TRACER_MAX_CALLSTACK + k |}.
Proof.
  intros Hwf Hint Hk Hfs Hfit. split.
  - destruct (Z.lt_ge_cases (count s) PALLENE_TRACER_MAX_CALLSTACK) as [Hroom | Hfull].
    + eexists. split; [apply frameenter_below_capacity; assumption |].
      cbn [stack count]. split; [reflexivity |]. split; [| lia].
      intros _. split; [reflexivity |].
      apply list_lookup_insert_eq. destruct Hwf as [Hlen Hcnt]. lia.
    + eexists. split; [apply frameenter_at_capacity; assumption |].
      cbn [stack count]. split; [reflexivity |]. split; [lia | reflexivity].
  - rewrite run_pushes_fresh_full by lia. rewrite Hfs. reflexivity.
Qed.

Lemma frameenter_counts_every_push_witness :
  (exists s', pallene_tracer_frameenter (fresh_fnstack sample_mem) sample_lua_frame = Ok s' /\
     count s' = count (fresh_fnstack sample_mem) + 1 /\
     (count (fresh_fnstack sample_mem) < PALLENE_TRACER_MAX_CALLSTACK ->
        stack s' = <[Z.to_nat (count (fresh_fnstack sample_mem)) := sample_lua_frame]>
                     (stack (fresh_fnstack sample_mem)) /\
        stack s' !! Z.to_nat (count (fresh_fnstack sample_mem)) = Some sample_lua_frame) /\
     (PALLENE_TRACER_MAX_CALLSTACK <= count (fresh_fnstack sample_mem) ->
        stack s' = stack (fresh_fnstack sample_mem))) /\
  run (map OpPush (replicate (Z.to_nat (PALLENE_TRACER_MAX_CALLSTACK + 3)) sample_c_frame))
      (fresh_fnstack sample_mem)
    = Ok {| stack := take (Z.to_nat PALLENE_TRACER_MAX_CALLSTACK)
                          (replicate (Z.to_nat (PALLENE_TRACER_MAX_CALLSTACK + 3))
                                     sample_c_frame);
            count := PALLENE_TRACER_MAX_CALLSTACK + 3 |}.
Proof.
  apply (frameenter_counts_every_push (fresh_fnstack sample_mem) sample_lua_frame sample_mem
           (replicate (Z.to_nat (PALLENE_TRACER_MAX_CALLSTACK + 3)) sample_c_frame) 3).
  - apply wf_fresh_fnstack.
  - cbn [count fresh_fnstack]. unfold INT_MAX. lia.
  - lia.
  - rewrite length_replicate, MAX_CALLSTACK_val. lia.
  - rewrite MAX_CALLSTACK_val. unfold INT_MAX. lia.
Defined.

(** C2 as stated fails at the largest [int]: with [count = INT_MAX] the
    increment [count++] overflows, and no state with [count + 1] results. *)
Lemma frameenter_at_INT_MAX :
  wf_fnstack {| stack := malloc_frames sample_mem PALLENE_TRACER_MAX_CALLSTACK;
                count := 2147483647 |} /\
  pallene_tracer_frameenter
    {| stack := malloc_frames sample_mem PALLENE_TRACER_MAX_CALLSTACK;
       count := 2147483647 |} sample_c_frame
  = Fault SignedOverflow.
Proof.
  split.
  - apply wf_with_count. unfold INT_MAX. lia.
  - apply frameenter_overflow. cbn [count]. unfold INT_MAX. lia.
Qed.

(** ** Push and pop together *)

Lemma peak_ge (ops : list engine_op) (open : nat) : (open <= peak ops open)%nat.
Proof.
  destruct ops as [| [f | ln | |] ops]; cbn [peak]; lia.
Qed.

Lemma frameexit_positive (s : pt_fnstack_t) :
  0 < count s ->
  pallene_tracer_frameexit s = Ok {| stack := stack s; count := count s - 1 |}.
Proof.
  intros Hpos. unfold pallene_tracer_frameexit.
  destruct (Z.ltb_spec 0 (count s)) as [_ | Hle]; [reflexivity | lia].
Qed.

Lemma run_well_nested (ops : list engine_op) :
  forall (s : pt_fnstack_t) (open open' : nat),
    nesting ops open = Some open' ->
    wf_fnstack s ->
    Z.of_nat open <= count s ->
    count s - Z.of_nat open + Z.of_nat (peak ops open) <= INT_MAX ->
    exists s', run ops s = Ok s' /\ wf_fnstack s' /\
               count s' = count s - Z.of_nat open + Z.of_nat open'.
Proof.
  induction ops as [| o ops IH]; intros s open open' Hnest Hwf Hopen Hpeak.
  - cbn [nesting] in Hnest. injection Hnest as <-.
    exists s. split; [reflexivity |]. split; [assumption | lia].
  - destruct o as [frame | ln | |]; cbn [nesting] in Hnest; try discriminate.
    + cbn [peak] in Hpeak. pose proof (peak_ge ops (S open)) as Hge.
      destruct (frameenter_wf s frame Hwf) as [s1 [Hs1 [Hwf1 Hc1]]]; [lia |].
      destruct (IH s1 (S open) open' Hnest Hwf1) as [s' [Hrun [Hwf' Hc']]]; [lia | lia |].
      exists s'. cbn [run step]. rewrite Hs1. cbn [bind].
      split; [assumption |]. split; [assumption | lia].
    + destruct open as [| open]; [discriminate |].
      cbn [peak Nat.pred] in Hpeak.
      assert (Hwf1 : wf_fnstack {| stack := stack s; count := count s - 1 |}).
      { destruct Hwf as [Hlen Hcnt]. split; cbn [stack count]; [assumption | lia]. }
      destruct (IH _ open open' Hnest Hwf1) as [s' [Hrun [Hwf' Hc']]];
        cbn [count]; [lia | lia |].
      exists s'. cbn [run step]. rewrite frameexit_positive by lia. cbn [bind].
      split; [assumption |]. split; [assumption |]. cbn [count] in Hc'. lia.
Qed.

(** C5, as the code has it: a well-nested sequence of pushes and pops, run
    from a stack whose [count] can take the deepest nesting of the sequence
    without leaving its [int], brings [count] back to where it started; and
    a push followed by a pop does so from every [count] below [INT_MAX]. *)
Theorem well_nested_restores_count (s : pt_fnstack_t) (ops : list engine_op) :
  wf_fnstack s ->
  well_nested ops ->
  count s + Z.of_nat (peak ops 0) <= INT_MAX ->
  (exists s', run ops s = Ok s' /\ count s' = count s) /\
  (forall frame, count s < INT_MAX ->
     exists s1 s2, pallene_tracer_frameenter s frame = Ok s1 /\
                   pallene_tracer_frameexit s1 = Ok s2 /\
                   count s2 = count s).
Proof.
  intros Hwf Hnest Hpeak. split.
  - destruct (run_well_nested ops s 0 0 Hnest Hwf) as [s' [Hrun [_ Hc]]].
    + destruct Hwf as [_ Hcnt]. lia.
    + lia.
    + exists s'. split; [assumption | lia].
  - intros frame Hlt.
    destruct (frameenter_wf s frame Hwf Hlt) as [s1 [Hs1 [Hwf1 Hc1]]].
    exists s1. eexists. split; [exact Hs1 |].
    split; [apply frameexit_positive; destruct Hwf as [_ Hcnt]; lia |].
    cbn [count]. lia.
Qed.

Lemma well_nested_restores_count_witness :
  (exists s', run [OpPush sample_lua_frame; OpPush sample_c_frame; OpPop; OpPop]
                  (fresh_fnstack sample_mem) = Ok s' /\
              count s' = count (fresh_fnstack sample_mem)) /\
  (forall frame, count (fresh_fnstack sample_mem) < INT_MAX ->
     exists s1 s2, pallene_tracer_frameenter (fresh_fnstack sample_mem) frame = Ok s1 /\
                   pallene_tracer_frameexit s1 = Ok s2 /\
                   count s2 = count (fresh_fnstack sample_mem)).
Proof.
  apply (well_nested_restores_count (fresh_fnstack sample_mem)
           [OpPush sample_lua_frame; OpPush sample_c_frame; OpPop; OpPop]).
  - apply wf_fresh_fnstack.
  - reflexivity.
  - cbn [count fresh_fnstack peak Nat.max Nat.pred]. unfold INT_MAX. lia.
Defined.

(** C5 as stated fails at the largest [int]: from [count = INT_MAX] the push
    of a push/pop pair overflows [count], and the pair does not return a
    state with the old [count]. *)
Lemma push_pop_at_INT_MAX :
  wf_fnstack {| stack := malloc_frames sample_mem PALLENE_TRACER_MAX_CALLSTACK;
                count := 2147483647 |} /\
  well_nested [OpPush sample_c_frame; OpPop] /\
  run [OpPush sample_c_frame; OpPop]
      {| stack := malloc_frames sample_mem PALLENE_TRACER_MAX_CALLSTACK;
         count := 2147483647 |}
  = Fault SignedOverflow.
Proof.
  split; [apply wf_with_count; unfold INT_MAX; lia |].
  split; [reflexivity |].
  cbn [run step]. rewrite frameenter_overflow; [reflexivity |].
  cbn [count]. unfold INT_MAX. lia.
Qed.

(** ** Set-line on a stack of one frame *)

Lemma setline_top_frame (t t' : pt_fnstack_t) (ln : Z) :
  pallene_tracer_setline t ln = Ok t' -> count t <> 0 ->
  exists f, stack t !! Z.to_nat (count t - 1) = Some f /\
            stack t' !! Z.to_nat (count t - 1) =
              Some {| type := type f; line := ln; shared := shared f |}.
Proof.
  unfold pallene_tracer_setline. intros Hset Hnz.
  destruct (Z.eqb_spec (count t) 0) as [Hz | _]; [contradiction |]. cbn [negb] in Hset.
  destruct (int_decr (count t)) as [idx |] eqn:Hidx; [| discriminate].
  cbn [bind] in Hset. apply int_decr_inv in Hidx. subst idx.
  destruct (array_read (stack t) (count t - 1)) as [f |] eqn:Hread; [| discriminate].
  cbn [bind] in Hset. apply array_read_inv in Hread as [Hpos Hf].
  destruct (array_write (stack t) (count t - 1) _) as [a |] eqn:Hw; [| discriminate].
  cbn [bind] in Hset. injection Hset as <-. cbn [stack].
  apply array_write_inv in Hw as [Hin ->].
  exists f. split; [assumption |]. apply list_lookup_insert_eq. lia.
Qed.

Lemma frameenter_fresh_one_frame :
  pallene_tracer_frameenter (fresh_fnstack sample_mem) sample_lua_frame = Ok one_frame_stack.
Proof.
  rewrite frameenter_below_capacity.
  - reflexivity.
  - apply wf_fresh_fnstack.
  - cbn [count fresh_fnstack]. rewrite MAX_CALLSTACK_val. lia.
Qed.

Lemma reachable_one_frame_stack : reachable one_frame_stack.
Proof.
  apply (reachable_frameenter (fresh_fnstack sample_mem) sample_lua_frame).
  - apply reachable_init.
  - apply frameenter_fresh_one_frame.
Qed.

Lemma lookup_one_frame_stack : stack one_frame_stack !! 0%nat = Some sample_lua_frame.
Proof.
  unfold one_frame_stack. cbn [stack].
  apply list_lookup_insert_eq.
  pose proof (length_block sample_mem) as Hlen. lia.
Qed.

(** ** The unwind finalizer *)

Lemma topmost_lua_bottom (n : nat) (c : Z) (fl fc : pt_frame_t) :
  type fl = PALLENE_TRACER_FRAME_TYPE_LUA ->
  type fc = PALLENE_TRACER_FRAME_TYPE_C ->
  0 < c ->
  topmost_lua {| stack := fl :: replicate n fc; count := c |} 0.
Proof.
  intros Hfl Hfc Hc. unfold topmost_lua. cbn [stack count].
  split; [lia |]. split.
  - exists fl. split; [reflexivity | assumption].
  - intros j f Hj Hf.
    replace (Z.to_nat j) with (S (Z.to_nat (j - 1))) in Hf by lia.
    cbn [lookup list_lookup] in Hf.
    apply lookup_replicate in Hf as [-> _]. assumption.
Qed.

Lemma take_cons_replicate (n m : nat) (x c : pt_frame_t) :
  (n <= m)%nat -> take (S n) (x :: replicate m c) = x :: replicate n c.
Proof.
  intros Hle. cbn [take]. rewrite take_replicate. f_equal. f_equal. lia.
Qed.

Lemma topmost_lua_overfull : topmost_lua overfull_stack 0.
Proof.
  unfold overfull_stack. apply topmost_lua_bottom.
  - reflexivity.
  - reflexivity.
  - rewrite MAX_CALLSTACK_val. lia.
Qed.

Lemma length_overfull :
  Z.of_nat (length (stack overfull_stack)) = PALLENE_TRACER_MAX_CALLSTACK.
Proof.
  unfold overfull_stack. cbn [stack].
  rewrite length_cons, length_replicate, MAX_CALLSTACK_val. lia.
Qed.

Lemma run_to_overfull :
  run (OpPush sample_lua_frame
         :: map OpPush (replicate (Z.to_nat PALLENE_TRACER_MAX_CALLSTACK) sample_c_frame))
      (fresh_fnstack sample_mem)
  = Ok overfull_stack.
Proof.
  assert (Hlen : Z.of_nat (length (sample_lua_frame
                   :: replicate (Z.to_nat PALLENE_TRACER_MAX_CALLSTACK) sample_c_frame))
                 = PALLENE_TRACER_MAX_CALLSTACK + 1).
  { rewrite length_cons, length_replicate. rewrite MAX_CALLSTACK_val. lia. }
  assert (Htake : take (Z.to_nat PALLENE_TRACER_MAX_CALLSTACK)
                    (sample_lua_frame
                       :: replicate (Z.to_nat PALLENE_TRACER_MAX_CALLSTACK) sample_c_frame)
                  = sample_lua_frame
                      :: replicate (Z.to_nat (PALLENE_TRACER_MAX_CALLSTACK - 1))
                           sample_c_frame).
  { replace (Z.to_nat PALLENE_TRACER_MAX_CALLSTACK)
      with (S (Z.to_nat (PALLENE_TRACER_MAX_CALLSTACK - 1)))
      by (rewrite MAX_CALLSTACK_val; lia).
    apply take_cons_replicate. lia. }
  pose proof (run_pushes_fresh_full sample_mem
                (sample_lua_frame
                   :: replicate (Z.to_nat PALLENE_TRACER_MAX_CALLSTACK) sample_c_frame))
    as Hrun.
  rewrite Htake, Hlen in Hrun. cbn [map] in Hrun.
  apply Hrun. rewrite MAX_CALLSTACK_val. unfold INT_MAX. lia.
Qed.

(** C1, as the code has it: when some frame below [count] is of type LUA
    and [count] does not exceed the capacity of the block, the finalizer
    returns the same frames with [count] set to the index [i] of the topmost
    LUA frame, every frame between [i] and the old [count] being of type C.
    In particular [LUA, C, C, C] with [count = 4] gives [count = 0], and
    [LUA, C, LUA, C] with [count = 4] gives [count = 2]. *)
Theorem finalizer_trims_to_topmost_lua (s : pt_fnstack_t)
    (fn : lua_CFunction) (d : pt_fn_details_t) (rest : list pt_frame_t) :
  has_lua_below s ->
  count s <= Z.of_nat (length (stack s)) ->
  (exists i, topmost_lua s i /\
     _pallene_tracer_finalizer s = Some (Ok {| stack := stack s; count := i |})) /\
  _pallene_tracer_finalizer
    {| stack := [PALLENE_TRACER_LUA_FRAME fn; PALLENE_TRACER_C_FRAME d;
                 PALLENE_TRACER_C_FRAME d; PALLENE_TRACER_C_FRAME d] ++ rest;
       count := 4 |}
  = Some (Ok {| stack := [PALLENE_TRACER_LUA_FRAME fn; PALLENE_TRACER_C_FRAME d;
                          PALLENE_TRACER_C_FRAME d; PALLENE_TRACER_C_FRAME d] ++ rest;
                count := 0 |}) /\
  _pallene_tracer_finalizer
    {| stack := [PALLENE_TRACER_LUA_FRAME fn; PALLENE_TRACER_C_FRAME d;
                 PALLENE_TRACER_LUA_FRAME fn; PALLENE_TRACER_C_FRAME d] ++ rest;
       count := 4 |}
  = Some (Ok {| stack := [PALLENE_TRACER_LUA_FRAME fn; PALLENE_TRACER_C_FRAME d;
                          PALLENE_TRACER_LUA_FRAME fn; PALLENE_TRACER_C_FRAME d] ++ rest;
                count := 2 |}).
Proof.
  intros Hlua Hcap. split; [| split; reflexivity].
  destruct (topmost_lua_exists s Hlua) as [i Hi].
  exists i. split; [assumption |]. apply finalizer_found; assumption.
Qed.

Lemma finalizer_trims_to_topmost_lua_witness :
  (exists i, topmost_lua one_frame_stack i /\
     _pallene_tracer_finalizer one_frame_stack
     = Some (Ok {| stack := stack one_frame_stack; count := i |})) /\
  _pallene_tracer_finalizer
    {| stack := [PALLENE_TRACER_LUA_FRAME (fn_extern 1); PALLENE_TRACER_C_FRAME sample_details;
                 PALLENE_TRACER_C_FRAME sample_details; PALLENE_TRACER_C_FRAME sample_details]
                ++ [];
       count := 4 |}
  = Some (Ok {| stack := [PALLENE_TRACER_LUA_FRAME (fn_extern 1);
                          PALLENE_TRACER_C_FRAME sample_details;
                          PALLENE_TRACER_C_FRAME sample_details;
                          PALLENE_TRACER_C_FRAME sample_details] ++ [];
                count := 0 |}) /\
  _pallene_tracer_finalizer
    {| stack := [PALLENE_TRACER_LUA_FRAME (fn_extern 1); PALLENE_TRACER_C_FRAME sample_details;
                 PALLENE_TRACER_LUA_FRAME (fn_extern 1); PALLENE_TRACER_C_FRAME sample_details]
                ++ [];
       count := 4 |}
  = Some (Ok {| stack := [PALLENE_TRACER_LUA_FRAME (fn_extern 1);
                          PALLENE_TRACER_C_FRAME sample_details;
                          PALLENE_TRACER_LUA_FRAME (fn_extern 1);
                          PALLENE_TRACER_C_FRAME sample_details] ++ [];
                count := 2 |}).
Proof.
  apply (finalizer_trims_to_topmost_lua one_frame_stack (fn_extern 1) sample_details []).
  - exists 0, sample_lua_frame. split; [cbn [count one_frame_stack]; lia |].
    split; [apply lookup_one_frame_stack | reflexivity].
  - pose proof (length_block sample_mem) as Hlen.
    unfold one_frame_stack. cbn [stack count]. rewrite length_insert. lia.
Defined.

(** C1 as stated fails once more pushes were counted than the block holds:
    the stack reached by pushing a LUA frame and then 100000 C frames has a
    LUA frame below [count] (at index 0, the topmost one), yet the finalizer
    starts its scan at index 100000, outside the block, and sets no
    [count]. *)
Lemma finalizer_past_capacity :
  run (OpPush sample_lua_frame
         :: map OpPush (replicate (Z.to_nat PALLENE_TRACER_MAX_CALLSTACK) sample_c_frame))
      (fresh_fnstack sample_mem)
  = Ok overfull_stack /\
  has_lua_below overfull_stack /\
  topmost_lua overfull_stack 0 /\
  _pallene_tracer_finalizer overfull_stack = Some (Fault (OutOfBounds 100000)).
Proof.
  split; [apply run_to_overfull |].
  split; [| split; [apply topmost_lua_overfull |]].
  - exists 0, sample_lua_frame. unfold overfull_stack. cbn [stack count].
    split; [rewrite MAX_CALLSTACK_val; lia |]. split; reflexivity.
  - rewrite finalizer_beyond.
    + reflexivity.
    + rewrite length_overfull. unfold overfull_stack. cbn [count]. lia.
Qed.

(** C6, as the code has it: when [count] does not exceed the capacity of
    the block and some frame below [count] is of type LUA, the scan of the
    finalizer ends, at the largest index [i] below [count] with a LUA frame,
    after exactly [count - i] evaluations of its loop condition: that much
    fuel, or more, gives the trimmed stack, and less does not.  Without a
    LUA frame below [count] the scan runs off the bottom of the block and
    reads [stack[-1]], which C leaves undefined. *)
Theorem finalizer_scan_within_capacity (s : pt_fnstack_t) :
  has_lua_below s ->
  count s <= Z.of_nat (length (stack s)) ->
  (exists i,
     topmost_lua s i /\
     finalizer_with_fuel (Z.to_nat (count s - i)) s =
       Some (Ok {| stack := stack s; count := i |}) /\
     (forall fuel, (Z.to_nat (count s - i) <= fuel)%nat ->
                   finalizer_with_fuel fuel s =
                     Some (Ok {| stack := stack s; count := i |})) /\
     (forall fuel, (fuel < Z.to_nat (count s - i))%nat ->
                   finalizer_with_fuel fuel s = None) /\
     _pallene_tracer_finalizer s = Some (Ok {| stack := stack s; count := i |})) /\
  (forall t,
     0 <= count t <= Z.of_nat (length (stack t)) ->
     (forall j f, 0 <= j < count t -> stack t !! Z.to_nat j = Some f ->
                  type f = PALLENE_TRACER_FRAME_TYPE_C) ->
     _pallene_tracer_finalizer t = Some (Fault (OutOfBounds (-1)))).
Proof.
  intros Hlua Hcap. split; [| intros t; apply finalizer_underflow].
  destruct (topmost_lua_exists s Hlua) as [i Hi]. exists i.
  split; [assumption |].
  split; [apply finalizer_with_fuel_found; [assumption | assumption | lia] |].
  split; [intros fuel Hfuel; apply finalizer_with_fuel_found; assumption |].
  split; [intros fuel Hfuel; apply (finalizer_with_fuel_short s i); assumption |].
  apply finalizer_found; assumption.
Qed.

Lemma finalizer_scan_within_capacity_witness :
  (exists i,
     topmost_lua two_excursions_stack i /\
     finalizer_with_fuel (Z.to_nat (count two_excursions_stack - i)) two_excursions_stack =
       Some (Ok {| stack := stack two_excursions_stack; count := i |}) /\
     (forall fuel, (Z.to_nat (count two_excursions_stack - i) <= fuel)%nat ->
                   finalizer_with_fuel fuel two_excursions_stack =
                     Some (Ok {| stack := stack two_excursions_stack; count := i |})) /\
     (forall fuel, (fuel < Z.to_nat (count two_excursions_stack - i))%nat ->
                   finalizer_with_fuel fuel two_excursions_stack = None) /\
     _pallene_tracer_finalizer two_excursions_stack =
       Some (Ok {| stack := stack two_excursions_stack; count := i |})) /\
  (forall t,
     0 <= count t <= Z.of_nat (length (stack t)) ->
     (forall j f, 0 <= j < count t -> stack t !! Z.to_nat j = Some f ->
                  type f = PALLENE_TRACER_FRAME_TYPE_C) ->
     _pallene_tracer_finalizer t = Some (Fault (OutOfBounds (-1)))).
Proof.
  apply (finalizer_scan_within_capacity two_excursions_stack).
  - exists 2, sample_lua_frame. cbn [count two_excursions_stack]. split; [lia |].
    split; reflexivity.
  - cbn [count stack two_excursions_stack length]. lia.
Defined.

(** C6 as stated fails once more pushes were counted than the block holds:
    the stack reached by pushing a LUA frame and then 100000 C frames has a
    LUA frame below [count], and the largest such index is 0; but there is
    no frame at [count - 1] = 100000 for the scan to start from, its first
    read is outside the block, and with the [count - 0] evaluations the
    claim allows it has not ended at a frame. *)
Lemma finalizer_scan_past_capacity :
  run (OpPush sample_lua_frame
         :: map OpPush (replicate (Z.to_nat PALLENE_TRACER_MAX_CALLSTACK) sample_c_frame))
      (fresh_fnstack sample_mem)
  = Ok overfull_stack /\
  has_lua_below overfull_stack /\
  topmost_lua overfull_stack 0 /\
  stack overfull_stack !! Z.to_nat (count overfull_stack - 1) = None /\
  finalizer_with_fuel (Z.to_nat (count overfull_stack - 0)) overfull_stack =
    Some (Fault (OutOfBounds 100000)).
Proof.
  pose proof length_overfull as Hlen. pose proof MAX_CALLSTACK_val as Hmax.
  assert (Hcnt : count overfull_stack = PALLENE_TRACER_MAX_CALLSTACK + 1) by reflexivity.
  split; [apply run_to_overfull |].
  split.
  { exists 0, sample_lua_frame. unfold overfull_stack. cbn [stack count].
    split; [lia |]. split; reflexivity. }
  split; [apply topmost_lua_overfull |].
  split; [apply lookup_ge_None_2; lia |].
  replace (Z.to_nat (count overfull_stack - 0))
    with (S (Z.to_nat (count overfull_stack - 1))) by lia.
  rewrite finalizer_with_fuel_beyond by lia.
  rewrite Hcnt, Hmax. reflexivity.
Qed.

(** ** Accesses outside the block *)

Lemma finalizer_result_beyond (s : pt_fnstack_t) :
  Z.of_nat (length (stack s)) < count s ->
  finalizer_result s = Fault (OutOfBounds (count s - 1)).
Proof.
  intros Hgt. unfold finalizer_result. rewrite finalizer_beyond by assumption.
  reflexivity.
Qed.

(** C3, where the code departs from it: on the stack that
    [pallene_tracer_init] creates, 100001 pushes followed by a set-line make
    [pallene_tracer_setline] access [stack[100000]], one frame past the
    block; the finalizer run there starts its scan at the same index; and
    the finalizer run on the fresh stack reads [stack[-1]]. *)
Theorem accesses_leave_the_block (mem : nat -> pt_frame_t) (frame : pt_frame_t) (ln : Z) :
  run (map OpPush (replicate (Z.to_nat (PALLENE_TRACER_MAX_CALLSTACK + 1)) frame)
         ++ [OpSetLine ln])
      (fresh_fnstack mem)
  = Fault (OutOfBounds PALLENE_TRACER_MAX_CALLSTACK) /\
  run (map OpPush (replicate (Z.to_nat (PALLENE_TRACER_MAX_CALLSTACK + 1)) frame)
         ++ [OpFinalizer])
      (fresh_fnstack mem)
  = Fault (OutOfBounds PALLENE_TRACER_MAX_CALLSTACK) /\
  run [OpFinalizer] (fresh_fnstack mem) = Fault (OutOfBounds (-1)).
Proof.
  assert (Hlen : Z.of_nat (length (replicate (Z.to_nat (PALLENE_TRACER_MAX_CALLSTACK + 1))
                                             frame))
                 = PALLENE_TRACER_MAX_CALLSTACK + 1).
  { rewrite length_replicate, MAX_CALLSTACK_val. lia. }
  assert (Hrun := run_pushes_fresh_full mem
                    (replicate (Z.to_nat (PALLENE_TRACER_MAX_CALLSTACK + 1)) frame)).
  rewrite Hlen in Hrun.
  specialize (Hrun ltac:(rewrite MAX_CALLSTACK_val; unfold INT_MAX; lia)).
  assert (Hshort : Z.of_nat (length (take (Z.to_nat PALLENE_TRACER_MAX_CALLSTACK)
                     (replicate (Z.to_nat (PALLENE_TRACER_MAX_CALLSTACK + 1)) frame)))
                   < PALLENE_TRACER_MAX_CALLSTACK + 1).
  { rewrite length_take. rewrite MAX_CALLSTACK_val. lia. }
  split; [| split].
  - rewrite run_app, Hrun. cbn [bind run step].
    rewrite setline_beyond by (cbn [stack count]; exact Hshort).
    cbn [bind count]. do 2 f_equal; lia.
  - rewrite run_app, Hrun. cbn [bind run step].
    rewrite finalizer_result_beyond by (cbn [stack count]; exact Hshort).
    cbn [bind count]. do 2 f_equal; lia.
  - cbn [run step]. unfold finalizer_result.
    rewrite finalizer_underflow.
    + reflexivity.
    + cbn [count fresh_fnstack]. lia.
    + cbn [count fresh_fnstack]. intros j f Hj. lia.
Qed.

(** ** The host API, call by call *)

Import Lua.

Lemma bindL_ok {A B : Type} (m : lua A) (k : A -> lua B) (L L' : lua_State) (a : A) :
  m L = Ok (a, L') -> bindL m k L = k a L'.
Proof. intros Hm. unfold bindL. rewrite Hm. reflexivity. Qed.

Lemma lua_getfield_registry (k : string) (L : lua_State) :
  lua_getfield LUA_REGISTRYINDEX k L =
    Ok (tt, {| registry := registry L; tables := tables L; udatas := udatas L;
               vstack := rawget (registry L) k :: vstack L |}).
Proof. reflexivity. Qed.

Lemma lua_setfield_registry (k : string) (L : lua_State) (v : lua_value)
    (rest : list lua_value) :
  vstack L = v :: rest ->
  lua_setfield LUA_REGISTRYINDEX k L =
    Ok (tt, {| registry := rawset (registry L) k v; tables := tables L;
               udatas := udatas L; vstack := rest |}).
Proof. intros Hst. unfold lua_setfield. cbn [index2table Z.eqb LUA_REGISTRYINDEX]. 
  change (LUA_REGISTRYINDEX =? LUA_REGISTRYINDEX) with true. cbn iota.
  rewrite Hst. reflexivity. Qed.

Lemma index2value_top (L : lua_State) (v : lua_value) (rest : list lua_value) :
  vstack L = v :: rest -> index2value L (-1) = Some v.
Proof. intros Hst. unfold index2value. rewrite Hst. reflexivity. Qed.

Lemma index2value_second (L : lua_State) (v w : lua_value) (rest : list lua_value) :
  vstack L = v :: w :: rest -> index2value L (-2) = Some w.
Proof. intros Hst. unfold index2value. rewrite Hst. reflexivity. Qed.

Lemma index2value_third (L : lua_State) (v w x : lua_value) (rest : list lua_value) :
  vstack L = v :: w :: x :: rest -> index2value L (-3) = Some x.
Proof. intros Hst. unfold index2value. rewrite Hst. reflexivity. Qed.

Lemma lua_isnil_top (L : lua_State) (v : lua_value) (rest : list lua_value) :
  vstack L = v :: rest ->
  lua_isnil (-1) L = Ok (match v with LNil => true | _ => false end, L).
Proof.
  intros Hst. unfold lua_isnil. rewrite (index2value_top L v rest Hst).
  destruct v; reflexivity.
Qed.

Lemma lua_touserdata_top (L : lua_State) (v : lua_value) (rest : list lua_value) :
  vstack L = v :: rest ->
  lua_touserdata (-1) L = Ok (match v with LUserdata p => Some p | _ => None end, L).
Proof.
  intros Hst. unfold lua_touserdata. rewrite (index2value_top L v rest Hst).
  destruct v; reflexivity.
Qed.

Lemma lua_setfield_second (k : string) (L : lua_State) (v : lua_value) (t : addr)
    (tb : lua_table) (rest : list lua_value) :
  vstack L = v :: LTable t :: rest ->
  tables L !! t = Some tb ->
  lua_setfield (-2) k L =
    Ok (tt, {| registry := registry L;
               tables := <[t := {| fields := rawset (fields tb) k v;
                                   table_meta := table_meta tb |}]> (tables L);
               udatas := udatas L; vstack := LTable t :: rest |}).
Proof.
  intros Hst Htb. unfold lua_setfield, index2table.
  change (-2 =? LUA_REGISTRYINDEX) with false. cbn iota.
  rewrite (index2value_second L v (LTable t) rest Hst).
  rewrite Hst, Htb. reflexivity.
Qed.

Lemma lua_setmetatable_userdata (L : lua_State) (m p : addr) (u : lua_udata)
    (rest : list lua_value) :
  vstack L = LTable m :: LUserdata p :: rest ->
  udatas L !! p = Some u ->
  lua_setmetatable (-2) L =
    Ok (tt, {| registry := registry L; tables := tables L;
               udatas := <[p := {| block := block u; udata_meta := Some m |}]> (udatas L);
               vstack := LUserdata p :: rest |}).
Proof.
  intros Hst Hu. unfold lua_setmetatable.
  rewrite (index2value_second L _ _ rest Hst).
  rewrite Hst, Hu. reflexivity.
Qed.

Lemma lua_setmetatable_table (L : lua_State) (m t : addr) (tb : lua_table)
    (rest : list lua_value) :
  vstack L = LTable m :: LTable t :: rest ->
  tables L !! t = Some tb ->
  lua_setmetatable (-2) L =
    Ok (tt, {| registry := registry L;
               tables := <[t := {| fields := fields tb; table_meta := Some m |}]> (tables L);
               udatas := udatas L; vstack := LTable t :: rest |}).
Proof.
  intros Hst Htb. unfold lua_setmetatable.
  rewrite (index2value_second L _ _ rest Hst).
  rewrite Hst, Htb. reflexivity.
Qed.

Lemma lua_pushvalue_third (L : lua_State) (v w x : lua_value) (rest : list lua_value) :
  vstack L = v :: w :: x :: rest ->
  lua_pushvalue (-3) L =
    Ok (tt, {| registry := registry L; tables := tables L; udatas := udatas L;
               vstack := x :: vstack L |}).
Proof.
  intros Hst. unfold lua_pushvalue.
  rewrite (index2value_third L v w x rest Hst). reflexivity.
Qed.

Lemma lua_pushcclosure_one (f : lua_CFunction) (L : lua_State) (v : lua_value)
    (rest : list lua_value) :
  vstack L = v :: rest ->
  lua_pushcclosure f 1 L =
    Ok (tt, {| registry := registry L; tables := tables L; udatas := udatas L;
               vstack := LCClosure f [v] :: rest |}).
Proof.
  intros Hst. unfold lua_pushcclosure. rewrite Hst.
  cbn [length]. 
  destruct (Z.leb_spec 1 (Z.of_nat (S (length rest)))) as [_ | Hlt]; [| lia].
  reflexivity.
Qed.

Lemma store_fnstack_live (p : addr) (s : pt_fnstack_t) (L : lua_State) (u : lua_udata) :
  udatas L !! p = Some u ->
  store_fnstack p s L =
    Ok (tt, {| registry := registry L; tables := tables L;
               udatas := <[p := {| block := Some s; udata_meta := udata_meta u |}]> (udatas L);
               vstack := vstack L |}).
Proof. intros Hu. unfold store_fnstack. rewrite Hu. reflexivity. Qed.



(** One call of the host API, run on the state at hand. *)
Ltac lua_step lem :=
  erewrite bindL_ok by (eapply lem; cbn [registry tables udatas vstack];
                        first [reflexivity | apply lookup_insert_eq | eassumption]);
  cbn [registry tables udatas vstack].

Lemma entries_differ : PALLENE_TRACER_CONTAINER_ENTRY <> PALLENE_TRACER_FINALIZER_ENTRY.
Proof. discriminate. Qed.

Lemma init_first_call (L : lua_State) (mem : nat -> pt_frame_t) :
  rawget (registry L) PALLENE_TRACER_CONTAINER_ENTRY = LNil ->
  exists p L1 gc fo mt tb_fo tb_mt,
    pallene_tracer_init true mem L = Ok (Some p, L1) /\
    udatas L !! p = None /\
    udatas L1 !! p = Some {| block := Some (fresh_fnstack mem); udata_meta := Some gc |} /\
    registry L1 !! PALLENE_TRACER_CONTAINER_ENTRY = Some (LUserdata p) /\
    registry L1 !! PALLENE_TRACER_FINALIZER_ENTRY = Some (LTable fo) /\
    tables L1 !! fo = Some tb_fo /\ table_meta tb_fo = Some mt /\
    tables L1 !! mt = Some tb_mt /\
    fields tb_mt !! "__close" = Some (LCClosure fn_pallene_tracer_finalizer [LUserdata p]) /\
    vstack L1 = LTable fo :: LNil :: vstack L.
Proof.
  intros Hnil. unfold pallene_tracer_init.
  lua_step lua_getfield_registry. rewrite Hnil.
  lua_step lua_isnil_top. cbn iota.
  erewrite bindL_ok by (unfold lua_newuserdata; reflexivity).
  cbn [registry tables udatas vstack].
  set (p := fresh (dom (udatas L))).
  assert (Hp : udatas L !! p = None).
  { apply not_elem_of_dom. apply is_fresh. }
  lua_step store_fnstack_live. cbn [udata_meta].
  erewrite bindL_ok by (unfold lua_newtable; reflexivity).
  cbn [registry tables udatas vstack].
  set (t1 := fresh (dom (tables L))).
  erewrite bindL_ok by (unfold lua_pushcfunction, push; reflexivity).
  cbn [registry tables udatas vstack].
  lua_step lua_setfield_second. cbn [fields table_meta].
  lua_step lua_setmetatable_userdata. cbn [block].
  erewrite bindL_ok by (unfold lua_newtable; reflexivity).
  cbn [registry tables udatas vstack].
  match goal with
  | |- context [fresh (dom ?m)] => set (tables2 := m); set (t2 := fresh (dom tables2))
  end.
  erewrite bindL_ok by (unfold lua_newtable; reflexivity).
  cbn [registry tables udatas vstack].
  match goal with
  | |- context [fresh (dom ?m)] => set (tables3 := m); set (t3 := fresh (dom tables3))
  end.
  assert (Hne : t3 <> t2).
  { intros Heq. apply (is_fresh (dom tables3)). fold t3. rewrite Heq.
    unfold tables3. rewrite dom_insert_L. set_solver. }
  lua_step lua_pushvalue_third.
  lua_step lua_pushcclosure_one.
  lua_step lua_setfield_second. cbn [fields table_meta].
  erewrite bindL_ok
    by (eapply lua_setmetatable_table; cbn [registry tables udatas vstack];
        [reflexivity
        | rewrite !lookup_insert_ne by exact Hne; unfold tables3; apply lookup_insert_eq]).
  cbn [registry tables udatas vstack fields].
  lua_step lua_setfield_registry.
  lua_step lua_setfield_registry.
  lua_step lua_getfield_registry.
  unfold ret, rawset, rawget.
  rewrite lookup_insert_ne by exact entries_differ.
  rewrite lookup_insert_eq. cbn [default from_option id].
  eexists p, _, t1, t2, t3, _, _.
  split; [reflexivity |]. cbn [registry tables udatas vstack].
  split; [exact Hp |].
  split; [apply lookup_insert_eq |].
  split; [apply lookup_insert_eq |].
  split; [rewrite lookup_insert_ne by exact entries_differ; apply lookup_insert_eq |].
  split; [apply lookup_insert_eq |]. cbn [table_meta].
  split; [reflexivity |].
  split; [rewrite lookup_insert_ne by exact (not_eq_sym Hne); apply lookup_insert_eq |].
  cbn [fields]. split; [apply lookup_insert_eq | reflexivity].
Qed.

Lemma init_later_call (L : lua_State) (mem : nat -> pt_frame_t) (p : addr) :
  published L p ->
  pallene_tracer_init true mem L =
    Ok (Some p, {| registry := registry L; tables := tables L; udatas := udatas L;
                   vstack := rawget (registry L) PALLENE_TRACER_FINALIZER_ENTRY
                               :: LUserdata p :: vstack L |}).
Proof.
  intros [Hreg _]. unfold pallene_tracer_init.
  lua_step lua_getfield_registry.
  unfold rawget at 1. rewrite Hreg. cbn [default from_option id].
  lua_step lua_isnil_top. cbn iota.
  lua_step lua_touserdata_top.
  lua_step lua_getfield_registry.
  reflexivity.
Qed.

(** ** Initialisation *)

(** Without [PT_DEBUG] nothing is created: nil is pushed and NULL
    returned. *)
Lemma init_without_debug (L : lua_State) (mem : nat -> pt_frame_t) :
  pallene_tracer_init false mem L =
    Ok (None, {| registry := registry L; tables := tables L; udatas := udatas L;
                 vstack := LNil :: vstack L |}).
Proof. reflexivity. Qed.

(** C4: on a host state whose reserved registry key holds nothing,
    [pallene_tracer_init] creates a userdatum at a new address [p], fills it
    with a block of [PALLENE_TRACER_MAX_CALLSTACK] frames and [count = 0],
    stores it under the reserved key and returns [p]; every later call, on
    any state that still has the userdatum under the key, returns [p] again
    and leaves registry and heap as they are; and a frame pushed through the
    pointer of the first call is read back through the pointer of a later
    one. *)
Theorem init_returns_the_same_stack (L : lua_State) (mem : nat -> pt_frame_t) :
  rawget (registry L) PALLENE_TRACER_CONTAINER_ENTRY = LNil ->
  exists p L1,
    pallene_tracer_init true mem L = Ok (Some p, L1) /\
    udatas L !! p = None /\
    fnstack_at L1 (Some p) = Some (fresh_fnstack mem) /\
    Z.of_nat (length (stack (fresh_fnstack mem))) = PALLENE_TRACER_MAX_CALLSTACK /\
    count (fresh_fnstack mem) = 0 /\
    published L1 p /\
    (forall L' mem', published L' p ->
       exists L'', pallene_tracer_init true mem' L' = Ok (Some p, L'') /\
                   published L'' p /\
                   registry L'' = registry L' /\ tables L'' = tables L' /\
                   udatas L'' = udatas L') /\
    (forall mem' frame, exists q L2 L3 s3,
       pallene_tracer_init true mem' L1 = Ok (q, L2) /\
       q = Some p /\
       through (Some p) (fun s => pallene_tracer_frameenter s frame) L2 = Ok (tt, L3) /\
       fnstack_at L3 q = Some s3 /\
       count s3 = 1 /\ stack s3 !! 0%nat = Some frame).
Proof.
  intros Hnil.
  destruct (init_first_call L mem Hnil)
    as (p & L1 & gc & fo & mt & tb_fo & tb_mt & Hinit & Hnew & Hud & Hreg & _).
  assert (Hpub : published L1 p).
  { split; [exact Hreg |]. rewrite Hud. eauto. }
  exists p, L1.
  split; [exact Hinit |]. split; [exact Hnew |].
  split; [cbn [fnstack_at]; rewrite Hud; reflexivity |].
  split; [apply wf_fresh_fnstack |].
  split; [reflexivity |].
  split; [exact Hpub |].
  split.
  - intros L' mem' Hpub'. eexists.
    split; [apply init_later_call; exact Hpub' |].
    cbn [registry tables udatas]. split; [exact Hpub' |]. repeat split.
  - intros mem' frame.
    pose proof (length_block mem) as Hlen.
    eexists (Some p), _, _, _.
    split; [apply init_later_call; exact Hpub |].
    split; [reflexivity |].
    unfold through, store_fnstack. cbn [fnstack_at udatas registry tables vstack].
    rewrite Hud. cbn [block].
    rewrite frameenter_below_capacity
      by (apply wf_fresh_fnstack || (cbn [count fresh_fnstack]; rewrite MAX_CALLSTACK_val; lia)).
    split; [reflexivity |]. cbn [udatas].
    rewrite lookup_insert_eq. cbn [block].
    split; [reflexivity |]. cbn [stack count fresh_fnstack].
    split; [reflexivity |].
    apply list_lookup_insert_eq. cbn [Z.to_nat]. lia.
Qed.

Lemma init_returns_the_same_stack_witness :
  exists p L1,
    pallene_tracer_init true sample_mem empty_state = Ok (Some p, L1) /\
    udatas empty_state !! p = None /\
    fnstack_at L1 (Some p) = Some (fresh_fnstack sample_mem) /\
    Z.of_nat (length (stack (fresh_fnstack sample_mem))) = PALLENE_TRACER_MAX_CALLSTACK /\
    count (fresh_fnstack sample_mem) = 0 /\
    published L1 p /\
    (forall L' mem', published L' p ->
       exists L'', pallene_tracer_init true mem' L' = Ok (Some p, L'') /\
                   published L'' p /\
                   registry L'' = registry L' /\ tables L'' = tables L' /\
                   udatas L'' = udatas L') /\
    (forall mem' frame, exists q L2 L3 s3,
       pallene_tracer_init true mem' L1 = Ok (q, L2) /\
       q = Some p /\
       through (Some p) (fun s => pallene_tracer_frameenter s frame) L2 = Ok (tt, L3) /\
       fnstack_at L3 q = Some s3 /\
       count s3 = 1 /\ stack s3 !! 0%nat = Some frame).
Proof.
  apply (init_returns_the_same_stack empty_state sample_mem).
  reflexivity.
Defined.

(** ** The invariant [count >= 0] *)

Lemma reachable_full_block (s : pt_fnstack_t) :
  reachable s -> wf_fnstack s.
Proof.
  intros Hreach.
  induction Hreach as [mem | t frame t' _ IH Hstep | t ln t' _ IH Hstep | t t' _ IH Hstep].
  - apply wf_fresh_fnstack.
  - destruct IH as [Hlen Hcnt]. pose proof (frameenter_inv _ _ _ Hstep) as [Hc Hl].
    split; [rewrite Hl; exact Hlen |].
    unfold pallene_tracer_frameenter in Hstep.
    destruct (Z.lt_ge_cases (count t) INT_MAX) as [Hlt | Hge]; [lia |].
    destruct (if count t <? PALLENE_TRACER_MAX_CALLSTACK
              then array_write (stack t) (count t) frame else Ok (stack t)) as [a | e];
      [| discriminate].
    cbn [bind] in Hstep. rewrite int_incr_overflow in Hstep by exact Hge. discriminate.
  - destruct IH as [Hlen Hcnt]. pose proof (setline_inv _ _ _ Hstep) as [Hc [Hl _]].
    split; [rewrite Hl; exact Hlen | lia].
  - destruct IH as [Hlen Hcnt]. injection Hstep as <-. split; cbn [stack count].
    + exact Hlen.
    + destruct (Z.ltb_spec 0 (count t)); cbn [Z.b2z]; lia.
Qed.

(** Every [count] an [int] can hold from 0 on is reached, by pushing. *)
Lemma reachable_any_count (n : Z) :
  0 <= n -> n <= INT_MAX -> exists s, reachable s /\ count s = n.
Proof.
  intros Hpos. revert n Hpos.
  apply (natlike_ind (fun n => n <= INT_MAX -> exists s, reachable s /\ count s = n)).
  - intros _. exists (fresh_fnstack sample_mem). split; [apply reachable_init | reflexivity].
  - intros n Hn IH Hle. destruct IH as [s [Hreach Hcnt]]; [lia |].
    destruct (frameenter_wf s sample_c_frame (reachable_full_block s Hreach))
      as [s' [Hstep [_ Hc']]]; [lia |].
    exists s'. split; [| lia].
    apply (reachable_frameenter s sample_c_frame); assumption.
Qed.

Lemma setline_exact (t t' : pt_fnstack_t) (ln : Z) :
  pallene_tracer_setline t ln = Ok t' ->
  count t' = count t /\
  (count t = 0 -> t' = t) /\
  (count t <> 0 ->
     exists f, stack t !! Z.to_nat (count t - 1) = Some f /\
               stack t' = <[Z.to_nat (count t - 1) :=
                              {| type := type f; line := ln; shared := shared f |}]>
                            (stack t)).
Proof.
  unfold pallene_tracer_setline. intros Hset.
  destruct (Z.eqb_spec (count t) 0) as [Hz | Hnz]; cbn [negb] in Hset.
  - injection Hset as <-. split; [reflexivity |]. split; [reflexivity | contradiction].
  - destruct (int_decr (count t)) as [idx |] eqn:Hidx; [| discriminate].
    cbn [bind] in Hset. apply int_decr_inv in Hidx. subst idx.
    destruct (array_read (stack t) (count t - 1)) as [f |] eqn:Hread; [| discriminate].
    cbn [bind] in Hset. apply array_read_inv in Hread as [Hpos Hf].
    destruct (array_write (stack t) (count t - 1) _) as [a |] eqn:Hw; [| discriminate].
    cbn [bind] in Hset. injection Hset as <-. cbn [stack count].
    apply array_write_inv in Hw as [_ ->].
    split; [reflexivity |]. split; [contradiction |].
    intros _. exists f. split; [exact Hf | reflexivity].
Qed.

(** C10, as the code has it: [pallene_tracer_init] leaves [count = 0], and
    every state reached from there through frameenter, setline and
    frameexit has [count >= 0] on a block of full size.  From such a state
    frameenter returns whenever [count < INT_MAX], with [count + 1];
    setline returns whenever [count <= capacity], with the same [count];
    frameexit always returns, with the same frames and [count >= 0].  Where
    they return from any state with [count >= 0], the three keep
    [count >= 0]; setline with [count = 0] returns the stack as it was, and
    otherwise writes the line of the frame at [count - 1] and nothing
    else. *)
Theorem count_stays_nonnegative (s : pt_fnstack_t) :
  reachable s ->
  0 <= count s /\
  Z.of_nat (length (stack s)) = PALLENE_TRACER_MAX_CALLSTACK /\
  (forall L mem,
     rawget (registry L) PALLENE_TRACER_CONTAINER_ENTRY = LNil ->
     exists p L1, pallene_tracer_init true mem L = Ok (Some p, L1) /\
                  fnstack_at L1 (Some p) = Some (fresh_fnstack mem) /\
                  count (fresh_fnstack mem) = 0 /\
                  reachable (fresh_fnstack mem)) /\
  (forall frame, count s < INT_MAX ->
     exists s', pallene_tracer_frameenter s frame = Ok s' /\
                count s' = count s + 1 /\ reachable s') /\
  (forall ln, count s <= PALLENE_TRACER_MAX_CALLSTACK ->
     exists s', pallene_tracer_setline s ln = Ok s' /\
                count s' = count s /\ reachable s') /\
  (exists s', pallene_tracer_frameexit s = Ok s' /\ stack s' = stack s /\
              0 <= count s' /\ reachable s') /\
  (forall t frame t',
     0 <= count t -> pallene_tracer_frameenter t frame = Ok t' -> 0 <= count t') /\
  (forall t ln t',
     pallene_tracer_setline t ln = Ok t' ->
     count t' = count t /\
     (count t = 0 -> t' = t) /\
     (count t <> 0 ->
        exists f, stack t !! Z.to_nat (count t - 1) = Some f /\
                  stack t' = <[Z.to_nat (count t - 1) :=
                                 {| type := type f; line := ln; shared := shared f |}]>
                               (stack t))) /\
  (forall t, exists t',
     pallene_tracer_frameexit t = Ok t' /\ stack t' = stack t /\
     (0 <= count t -> 0 <= count t')).
Proof.
  intros Hreach. pose proof (reachable_full_block s Hreach) as Hwf.
  pose proof Hwf as [Hlen Hcnt].
  split; [lia |]. split; [exact Hlen |].
  split.
  { intros L mem Hnil.
    destruct (init_first_call L mem Hnil)
      as (p & L1 & gc & fo & mt & tb_fo & tb_mt & Hrun & _ & Hud & _).
    exists p, L1. split; [exact Hrun |].
    split; [cbn [fnstack_at]; rewrite Hud; reflexivity |].
    split; [reflexivity | apply reachable_init]. }
  split.
  { intros frame Hlt.
    destruct (frameenter_wf s frame Hwf Hlt) as [s' [Hstep [_ Hc]]].
    exists s'. split; [exact Hstep |]. split; [exact Hc |].
    apply (reachable_frameenter s frame); assumption. }
  split.
  { intros ln Hcap. destruct (Z.eq_dec (count s) 0) as [Hz | Hnz].
    - exists s. split; [apply setline_empty; exact Hz |]. split; [reflexivity | exact Hreach].
    - destruct (lookup_lt_is_Some_2 (stack s) (Z.to_nat (count s - 1))) as [f Hf]; [lia |].
      pose proof (setline_in_bounds s ln f ltac:(lia) Hf) as Hstep.
      eexists. split; [exact Hstep |]. split; [reflexivity |].
      apply (reachable_setline s ln). exact Hreach. exact Hstep. }
  split.
  { destruct (frameexit_saturates_aux s) as [s' [Hstep [Hstk Hnn]]].
    exists s'. split; [exact Hstep |]. split; [exact Hstk |].
    split; [apply Hnn; lia |]. apply (reachable_frameexit s); assumption. }
  split.
  { intros t frame t' Hpos Hstep. apply frameenter_inv in Hstep as [Hc _]. lia. }
  split; [intros t ln t' Hstep; apply (setline_exact t t' ln Hstep) |].
  intros t. apply frameexit_saturates_aux.
Qed.

Lemma count_stays_nonnegative_witness :
  0 <= count one_frame_stack /\
  Z.of_nat (length (stack one_frame_stack)) = PALLENE_TRACER_MAX_CALLSTACK /\
  (forall L mem,
     rawget (registry L) PALLENE_TRACER_CONTAINER_ENTRY = LNil ->
     exists p L1, pallene_tracer_init true mem L = Ok (Some p, L1) /\
                  fnstack_at L1 (Some p) = Some (fresh_fnstack mem) /\
                  count (fresh_fnstack mem) = 0 /\
                  reachable (fresh_fnstack mem)) /\
  (forall frame, count one_frame_stack < INT_MAX ->
     exists s', pallene_tracer_frameenter one_frame_stack frame = Ok s' /\
                count s' = count one_frame_stack + 1 /\ reachable s') /\
  (forall ln, count one_frame_stack <= PALLENE_TRACER_MAX_CALLSTACK ->
     exists s', pallene_tracer_setline one_frame_stack ln = Ok s' /\
                count s' = count one_frame_stack /\ reachable s') /\
  (exists s', pallene_tracer_frameexit one_frame_stack = Ok s' /\
              stack s' = stack one_frame_stack /\
              0 <= count s' /\ reachable s') /\
  (forall t frame t',
     0 <= count t -> pallene_tracer_frameenter t frame = Ok t' -> 0 <= count t') /\
  (forall t ln t',
     pallene_tracer_setline t ln = Ok t' ->
     count t' = count t /\
     (count t = 0 -> t' = t) /\
     (count t <> 0 ->
        exists f, stack t !! Z.to_nat (count t - 1) = Some f /\
                  stack t' = <[Z.to_nat (count t - 1) :=
                                 {| type := type f; line := ln; shared := shared f |}]>
                               (stack t))) /\
  (forall t, exists t',
     pallene_tracer_frameexit t = Ok t' /\ stack t' = stack t /\
     (0 <= count t -> 0 <= count t')).
Proof.
  apply (count_stays_nonnegative one_frame_stack).
  apply (reachable_frameenter (fresh_fnstack sample_mem) sample_lua_frame).
  - apply reachable_init.
  - apply frameenter_fresh_one_frame.
Defined.

(** C10 as stated fails twice.  On the reachable stack holding one frame,
    [pallene_tracer_setline] changes the contents of the frames array.  And
    a stack with [count = INT_MAX] is reachable, where frameenter cannot
    keep [count >= 0]: [count++] overflows and no state results. *)
Lemma setline_changes_frames :
  (reachable one_frame_stack /\
   stack one_frame_stack !! 0%nat = Some sample_lua_frame /\
   exists s', pallene_tracer_setline one_frame_stack 42 = Ok s' /\
     stack s' !! 0%nat =
       Some {| type := PALLENE_TRACER_FRAME_TYPE_LUA; line := 42;
               shared := c_fnptr (fn_extern 1) |} /\
     stack s' <> stack one_frame_stack) /\
  (exists s, reachable s /\ count s = 2147483647 /\
             pallene_tracer_frameenter s sample_c_frame = Fault SignedOverflow).
Proof.
  split.
  - split; [apply reachable_one_frame_stack |].
    split; [apply lookup_one_frame_stack |].
    pose proof lookup_one_frame_stack as Hlook.
    eexists. split.
    + apply (setline_in_bounds one_frame_stack 42 sample_lua_frame).
      * cbn [count one_frame_stack]. lia.
      * exact Hlook.
    + cbn [stack count type shared sample_lua_frame PALLENE_TRACER_LUA_FRAME].
      change (Z.to_nat (count one_frame_stack - 1)) with 0%nat.
      assert (Hnew : <[0%nat := {| type := PALLENE_TRACER_FRAME_TYPE_LUA; line := 42;
                                shared := c_fnptr (fn_extern 1) |}]>
                       (stack one_frame_stack) !! 0%nat
                     = Some {| type := PALLENE_TRACER_FRAME_TYPE_LUA; line := 42;
                               shared := c_fnptr (fn_extern 1) |}).
      { apply list_lookup_insert_eq. apply lookup_lt_Some in Hlook. exact Hlook. }
      split; [exact Hnew |].
      intros Heq. rewrite Heq in Hnew. rewrite Hlook in Hnew. discriminate.
  - destruct (reachable_any_count 2147483647) as [s [Hreach Hcnt]];
      [lia | unfold INT_MAX; lia |].
    exists s. split; [exact Hreach |]. split; [exact Hcnt |].
    apply frameenter_overflow. unfold INT_MAX. lia.
Qed.

(** * Further properties of the engine *)

(** ** What a scan that ends has seen *)

Lemma finalizer_loop_inv (fuel : nat) (stk : list pt_frame_t) :
  forall idx i,
    finalizer_loop fuel stk idx = Some (Ok i) ->
    0 <= i <= idx /\
    (exists f, stk !! Z.to_nat i = Some f /\ type f = PALLENE_TRACER_FRAME_TYPE_LUA) /\
    (forall j, i < j <= idx ->
       exists f, stk !! Z.to_nat j = Some f /\ type f = PALLENE_TRACER_FRAME_TYPE_C).
Proof.
  induction fuel as [| fuel IH]; intros idx i Hloop; [discriminate |].
  cbn [finalizer_loop] in Hloop.
  destruct (array_read stk idx) as [f | e] eqn:Hread; [| discriminate].
  apply array_read_inv in Hread as [Hpos Hf].
  destruct (type f) eqn:Htf; cbn [frame_type_eqb] in Hloop.
  - destruct (int_decr idx) as [idx' | e] eqn:Hdecr; [| discriminate].
    apply int_decr_inv in Hdecr. subst idx'.
    destruct (IH _ _ Hloop) as [Hi [Hlua Habove]].
    split; [lia |]. split; [assumption |].
    intros j Hj. destruct (Z.eq_dec j idx) as [-> | Hne].
    + exists f. split; assumption.
    + apply Habove. lia.
  - injection Hloop as <-. split; [lia |]. split; [eauto |].
    intros j Hj. lia.
Qed.

Lemma finalizer_inv (s s' : pt_fnstack_t) :
  _pallene_tracer_finalizer s = Some (Ok s') ->
  stack s' = stack s /\ topmost_lua s (count s') /\
  count s <= Z.of_nat (length (stack s)).
Proof.
  unfold _pallene_tracer_finalizer, finalizer_with_fuel. intros Hfin.
  destruct (int_decr (count s)) as [idx0 | e] eqn:Hdecr; [| discriminate].
  apply int_decr_inv in Hdecr. subst idx0.
  destruct (finalizer_loop _ (stack s) (count s - 1)) as [[i | e] |] eqn:Hloop;
    try discriminate.
  injection Hfin as <-. cbn [stack count].
  destruct (finalizer_loop_inv _ _ _ _ Hloop) as [Hi [Hlua Habove]].
  split; [reflexivity |]. split.
  - split; [lia |]. split; [assumption |].
    intros j f Hj Hf. destruct (Habove j) as [g [Hg Htg]]; [lia |]. congruence.
  - destruct (Z.eq_dec i (count s - 1)) as [Heq | Hne].
    + destruct Hlua as [f [Hf _]]. apply lookup_lt_Some in Hf. lia.
    + destruct (Habove (count s - 1)) as [f [Hf _]]; [lia |].
      apply lookup_lt_Some in Hf. lia.
Qed.

Lemma array_read_fault (a : list pt_frame_t) (idx : Z) (e : fault) :
  array_read a idx = Fault e ->
  e = OutOfBounds idx /\ (idx < 0 \/ Z.of_nat (length a) <= idx).
Proof.
  unfold array_read. destruct (Z.leb_spec 0 idx) as [Hpos | Hneg].
  - destruct (a !! Z.to_nat idx) as [f |] eqn:Hlook; [discriminate |].
    intros Heq. injection Heq as <-. split; [reflexivity |].
    apply lookup_ge_None in Hlook. lia.
  - intros Heq. injection Heq as <-. split; [reflexivity | lia].
Qed.

(** A scan that ends without a frame has read outside the block. *)
Lemma finalizer_loop_fault (fuel : nat) (stk : list pt_frame_t) :
  forall idx e,
    finalizer_loop fuel stk idx = Some (Fault e) ->
    exists k, e = OutOfBounds k /\ k <= idx /\ (k < 0 \/ Z.of_nat (length stk) <= k).
Proof.
  induction fuel as [| fuel IH]; intros idx e Hloop; [discriminate |].
  cbn [finalizer_loop] in Hloop.
  destruct (array_read stk idx) as [f | e'] eqn:Hread.
  - apply array_read_inv in Hread as [Hpos _].
    destruct (frame_type_eqb (type f) PALLENE_TRACER_FRAME_TYPE_LUA); [discriminate |].
    rewrite int_decr_ok in Hloop by (unfold INT_MIN; lia).
    destruct (IH _ _ Hloop) as [k [He [Hk Hout]]].
    exists k. split; [exact He |]. split; [lia | exact Hout].
  - injection Hloop as <-. apply array_read_fault in Hread as [-> Hout].
    exists idx. split; [reflexivity |]. split; [lia | exact Hout].
Qed.

(** X1: the finalizer returns a stack exactly when [count] is within the
    block and some frame below it is of type LUA; the stack it returns has
    the same frames, and its [count] is the index of the topmost LUA
    frame.  In every other state the finalizer ends without a stack:
    either a read of its scan, at an index no higher than [count - 1], is
    outside the block, or [count] is the smallest [int] and [count - 1]
    overflows before any read. *)
Theorem finalizer_returns_iff (s s' : pt_fnstack_t) :
  (_pallene_tracer_finalizer s = Some (Ok s') <->
   stack s' = stack s /\ topmost_lua s (count s') /\
   count s <= Z.of_nat (length (stack s))) /\
  ((exists t, _pallene_tracer_finalizer s = Some (Ok t)) \/
   (exists e, _pallene_tracer_finalizer s = Some (Fault e) /\
      ((e = SignedOverflow /\ count s <= INT_MIN) \/
       (exists k, e = OutOfBounds k /\ k <= count s - 1 /\
                  (k < 0 \/ Z.of_nat (length (stack s)) <= k))))).
Proof.
  split.
  - split; [apply finalizer_inv |].
    intros [Hstk [Htop Hcap]].
    rewrite (finalizer_found s (count s') Htop Hcap).
    destruct s' as [stk' cnt']. cbn [stack count] in *. subst stk'. reflexivity.
  - destruct (_pallene_tracer_finalizer_total s) as [[t | e] Hr]; [left; eauto |].
    right. exists e. split; [exact Hr |].
    unfold _pallene_tracer_finalizer, finalizer_with_fuel in Hr.
    unfold int_decr in Hr. destruct (Z.ltb_spec INT_MIN (count s)) as [Hgt | Hle].
    + right.
      destruct (finalizer_loop _ (stack s) (count s - 1)) as [[i | e'] |] eqn:Hloop;
        try discriminate.
      injection Hr as <-. apply (finalizer_loop_fault _ _ _ _ Hloop).
    + left. injection Hr as <-. split; [reflexivity | exact Hle].
Qed.

(** ** The block is never resized *)

Lemma step_keeps_length (o : engine_op) (s s' : pt_fnstack_t) :
  step o s = Ok s' -> length (stack s') = length (stack s).
Proof.
  destruct o as [frame | ln | |]; cbn [step]; intros Hstep.
  - apply frameenter_inv in Hstep as [_ Hlen]. exact Hlen.
  - apply setline_inv in Hstep as [_ [Hlen _]]. exact Hlen.
  - injection Hstep as <-. reflexivity.
  - unfold finalizer_result in Hstep.
    destruct (_pallene_tracer_finalizer s) as [r |] eqn:Hfin; [| discriminate].
    subst r. apply finalizer_inv in Hfin as [Hstk _]. rewrite Hstk. reflexivity.
Qed.

Lemma run_keeps_length (ops : list engine_op) (s s' : pt_fnstack_t) :
  run ops s = Ok s' -> length (stack s') = length (stack s).
Proof.
  revert s. induction ops as [| o ops IH]; intros s Hrun.
  - injection Hrun as <-. reflexivity.
  - cbn [run] in Hrun. destruct (step o s) as [s1 | e] eqn:Hstep; [| discriminate].
    cbn [bind] in Hrun. rewrite (IH _ Hrun). apply (step_keeps_length o). exact Hstep.
Qed.

(** X2: whatever pushes, set-lines, pops and finalizer runs a stack goes
    through, the block it ends with is as long as the block it started
    with. *)
Theorem run_keeps_block_length (ops : list engine_op) (s s' : pt_fnstack_t) :
  run ops s = Ok s' -> length (stack s') = length (stack s).
Proof. apply run_keeps_length. Qed.

Lemma run_keeps_block_length_witness :
  length (stack {| stack := [sample_lua_frame;
                             {| type := PALLENE_TRACER_FRAME_TYPE_C; line := 7;
                                shared := details sample_details |}];
                   count := 0 |}) =
  length (stack {| stack := [sample_c_frame; sample_c_frame]; count := 1 |}).
Proof.
  apply (run_keeps_block_length
           [OpPop; OpPush sample_lua_frame; OpPush sample_c_frame; OpSetLine 7; OpFinalizer]
           {| stack := [sample_c_frame; sample_c_frame]; count := 1 |}).
  reflexivity.
Defined.

(** ** The shadow stack follows the calls *)

Lemma step_tracks_calls (o : engine_op) (s : pt_fnstack_t) (act : list pt_frame_t) :
  Z.of_nat (length (stack s)) = PALLENE_TRACER_MAX_CALLSTACK ->
  represents act s ->
  tracked [o] act = true ->
  exists s1, step o s = Ok s1 /\ represents (calls_step o act) s1 /\
             length (stack s1) = length (stack s).
Proof.
  intros Hlen [Hcnt Hslots] Hguard. cbn [tracked] in Hguard.
  rewrite andb_true_r in Hguard.
  destruct o as [frame | ln | |]; cbn [step calls_step]; unfold represents;
    [| | | discriminate].
  - apply Z.ltb_lt in Hguard.
    destruct (Z.lt_ge_cases (count s) PALLENE_TRACER_MAX_CALLSTACK) as [Hroom | Hfull].
    + eexists. split; [apply frameenter_below_capacity; [split; [exact Hlen | lia] | lia] |].
      cbn [stack count]. rewrite Hcnt, Nat2Z.id.
      split; [| apply length_insert].
      split; [rewrite length_app; cbn [length]; lia |].
      intros j Hj Hjmax. rewrite length_app in Hj. cbn [length] in Hj.
      destruct (Nat.eq_dec j (length act)) as [-> | Hne].
      * rewrite list_lookup_insert_eq by lia.
        rewrite lookup_app_r by lia. rewrite Nat.sub_diag. reflexivity.
      * rewrite list_lookup_insert_ne by congruence.
        rewrite lookup_app_l by lia. apply Hslots; lia.
    + eexists. split; [apply frameenter_at_capacity; lia |].
      cbn [stack count]. split; [| reflexivity].
      split; [rewrite length_app; cbn [length]; lia |].
      intros j Hj Hjmax. rewrite lookup_app_l by lia. apply Hslots; lia.
  - apply Z.leb_le in Hguard.
    destruct (act !! (length act - 1)%nat) as [f |] eqn:Htop.
    + pose proof (lookup_lt_Some _ _ _ Htop) as Hpos.
      assert (Hidx : Z.to_nat (count s - 1) = (length act - 1)%nat) by lia.
      assert (Hs : stack s !! (length act - 1)%nat = Some f).
      { rewrite Hslots by lia. exact Htop. }
      eexists. split.
      * apply (setline_in_bounds s ln f); [lia |]. rewrite Hidx. exact Hs.
      * cbn [stack count]. rewrite Hidx. split; [| apply length_insert].
        split; [rewrite length_insert; exact Hcnt |].
        intros j Hj Hjmax. rewrite length_insert in Hj.
        destruct (Nat.eq_dec j (length act - 1)%nat) as [-> | Hne].
        -- rewrite !list_lookup_insert_eq; [reflexivity | lia |].
           apply lookup_lt_Some in Hs. exact Hs.
        -- rewrite !list_lookup_insert_ne by congruence. apply Hslots; lia.
    + apply lookup_ge_None in Htop.
      exists s. split; [apply setline_empty; lia |].
      split; [split; assumption | reflexivity].
  - eexists. split; [reflexivity |]. cbn [stack count].
    split; [| reflexivity]. split.
    + rewrite length_take.
      destruct (Z.ltb_spec 0 (count s)) as [Hpos | Hzero]; cbn [Z.b2z]; lia.
    + intros j Hj Hjmax. rewrite length_take in Hj.
      rewrite lookup_take_lt by lia. apply Hslots; lia.
Qed.

(** X3: along every run of pushes, set-lines and pops in which no push
    finds [count] at [INT_MAX] and no set-line finds more calls open than
    the block has slots, the three operations return, [count] is the number
    of calls that are open, and every open call that has a slot in the
    block is in its slot, with the line last set for it, whatever the depth
    reached in between. *)
Theorem shadow_stack_tracks_calls (ops : list engine_op) (s : pt_fnstack_t)
    (act : list pt_frame_t) :
  Z.of_nat (length (stack s)) = PALLENE_TRACER_MAX_CALLSTACK ->
  represents act s ->
  tracked ops act = true ->
  exists s', run ops s = Ok s' /\ represents (calls_after ops act) s' /\
             length (stack s') = length (stack s).
Proof.
  revert s act. induction ops as [| o ops IH]; intros s act Hlen Hrep Htr.
  - exists s. split; [reflexivity |]. split; [exact Hrep | reflexivity].
  - cbn [tracked] in Htr. apply andb_true_iff in Htr as [Hguard Hrest].
    destruct (step_tracks_calls o s act Hlen Hrep) as [s1 [Hstep [Hrep1 Hlen1]]].
    { cbn [tracked]. rewrite Hguard. reflexivity. }
    destruct (IH s1 (calls_step o act)) as [s' [Hrun [Hrep' Hlen']]];
      [lia | exact Hrep1 | exact Hrest |].
    exists s'. cbn [run calls_after]. rewrite Hstep. cbn [bind].
    split; [exact Hrun |]. split; [exact Hrep' | lia].
Qed.

Lemma represents_fresh (mem : nat -> pt_frame_t) : represents [] (fresh_fnstack mem).
Proof.
  split; [reflexivity |]. intros j Hj. cbn [length] in Hj. lia.
Qed.

Lemma shadow_stack_tracks_calls_witness :
  exists s',
    run [OpPush sample_lua_frame; OpSetLine 3; OpPush sample_c_frame; OpSetLine 9; OpPop;
         OpPop; OpPop]
        (fresh_fnstack sample_mem) = Ok s' /\
    represents
      (calls_after [OpPush sample_lua_frame; OpSetLine 3; OpPush sample_c_frame;
                    OpSetLine 9; OpPop; OpPop; OpPop] [])
      s' /\
    length (stack s') = length (stack (fresh_fnstack sample_mem)).
Proof.
  apply (shadow_stack_tracks_calls
           [OpPush sample_lua_frame; OpSetLine 3; OpPush sample_c_frame; OpSetLine 9; OpPop;
            OpPop; OpPop]
           (fresh_fnstack sample_mem) []).
  - apply wf_fresh_fnstack.
  - apply represents_fresh.
  - reflexivity.
Defined.

(** ** An excursion cut short *)

Lemma native_run_keeps_boundary (c : Z) (ops : list engine_op) :
  0 <= c ->
  forall (t : pt_fnstack_t) (open open' : nat),
    native_run ops open = Some open' ->
    Z.of_nat (length (stack t)) = PALLENE_TRACER_MAX_CALLSTACK ->
    count t = c + 1 + Z.of_nat open ->
    (exists fl, stack t !! Z.to_nat c = Some fl /\ type fl = PALLENE_TRACER_FRAME_TYPE_LUA) ->
    (forall j f, c < j < count t -> stack t !! Z.to_nat j = Some f ->
                 type f = PALLENE_TRACER_FRAME_TYPE_C) ->
    c + 1 + Z.of_nat (peak ops open) <= PALLENE_TRACER_MAX_CALLSTACK ->
    exists t',
      run ops t = Ok t' /\
      Z.of_nat (length (stack t')) = PALLENE_TRACER_MAX_CALLSTACK /\
      count t' = c + 1 + Z.of_nat open' /\
      (exists fl, stack t' !! Z.to_nat c = Some fl /\
                  type fl = PALLENE_TRACER_FRAME_TYPE_LUA) /\
      (forall j f, c < j < count t' -> stack t' !! Z.to_nat j = Some f ->
                   type f = PALLENE_TRACER_FRAME_TYPE_C) /\
      (forall j : nat, Z.of_nat j < c -> stack t' !! j = stack t !! j).
Proof.
  intros Hc. induction ops as [| o ops IH];
    intros t open open' Hnat Hlen Hcnt Hlua Habove Hpeak.
  - cbn [native_run] in Hnat. injection Hnat as <-.
    exists t. repeat (split; [assumption || reflexivity |]). reflexivity.
  - pose proof MAX_CALLSTACK_val as Hmax.
    destruct o as [frame | ln | |]; cbn [native_run] in Hnat; [| | | discriminate].
    + destruct (type frame) eqn:Htf; cbn [frame_type_eqb] in Hnat; [| discriminate].
      cbn [peak] in Hpeak. pose proof (peak_ge ops (S open)) as Hge.
      assert (Hstep : pallene_tracer_frameenter t frame =
                Ok {| stack := <[Z.to_nat (count t) := frame]> (stack t);
                      count := count t + 1 |}).
      { apply frameenter_below_capacity; [split; [exact Hlen |] |];
          unfold INT_MAX; lia. }
      destruct (IH {| stack := <[Z.to_nat (count t) := frame]> (stack t);
                      count := count t + 1 |} (S open) open' Hnat)
        as [t' [Hrun [Hlen' [Hcnt' [Hlua' [Habove' Hbelow']]]]]]; cbn [stack count].
      * rewrite length_insert. exact Hlen.
      * lia.
      * destruct Hlua as [fl [Hfl Htl]]. exists fl. split; [| exact Htl].
        rewrite list_lookup_insert_ne by lia. exact Hfl.
      * intros j f Hj Hf. destruct (Z.eq_dec j (count t)) as [-> | Hne].
        -- rewrite list_lookup_insert_eq in Hf by lia. congruence.
        -- rewrite list_lookup_insert_ne in Hf by lia. apply (Habove j f); [lia | exact Hf].
      * lia.
      * exists t'. cbn [run step]. rewrite Hstep. cbn [bind].
        split; [exact Hrun |]. split; [exact Hlen' |]. split; [exact Hcnt' |].
        split; [exact Hlua' |]. split; [exact Habove' |].
        intros j Hj. rewrite Hbelow' by exact Hj. cbn [stack].
        apply list_lookup_insert_ne. lia.
    + cbn [peak] in Hpeak. pose proof (peak_ge ops open) as Hge.
      destruct (lookup_lt_is_Some_2 (stack t) (Z.to_nat (count t - 1))) as [f Hf]; [lia |].
      assert (Hstep := setline_in_bounds t ln f ltac:(lia) Hf).
      destruct (IH {| stack := <[Z.to_nat (count t - 1) :=
                                   {| type := type f; line := ln; shared := shared f |}]>
                                 (stack t);
                      count := count t |} open open' Hnat)
        as [t' [Hrun [Hlen' [Hcnt' [Hlua' [Habove' Hbelow']]]]]]; cbn [stack count].
      * rewrite length_insert. exact Hlen.
      * exact Hcnt.
      * destruct Hlua as [fl [Hfl Htl]].
        destruct (Z.eq_dec (count t - 1) c) as [Heq | Hne].
        -- rewrite Heq in *. eexists. split; [apply list_lookup_insert_eq; lia |].
           cbn [type]. congruence.
        -- exists fl. split; [| exact Htl].
           rewrite list_lookup_insert_ne by lia. exact Hfl.
      * intros j g Hj Hg. destruct (Z.eq_dec j (count t - 1)) as [-> | Hne].
        -- rewrite list_lookup_insert_eq in Hg by lia. injection Hg as <-. cbn [type].
           apply (Habove (count t - 1) f); [lia | exact Hf].
        -- rewrite list_lookup_insert_ne in Hg by lia. apply (Habove j g); [lia | exact Hg].
      * lia.
      * exists t'. cbn [run step]. rewrite Hstep. cbn [bind].
        split; [exact Hrun |]. split; [exact Hlen' |]. split; [exact Hcnt' |].
        split; [exact Hlua' |]. split; [exact Habove' |].
        intros j Hj. rewrite Hbelow' by exact Hj. cbn [stack].
        apply list_lookup_insert_ne. lia.
    + destruct open as [| open]; [discriminate |].
      cbn [peak Nat.pred] in Hpeak. pose proof (peak_ge ops open) as Hge.
      destruct (IH {| stack := stack t; count := count t - 1 |} open open' Hnat)
        as [t' [Hrun [Hlen' [Hcnt' [Hlua' [Habove' Hbelow']]]]]]; cbn [stack count].
      * exact Hlen.
      * lia.
      * exact Hlua.
      * intros j f Hj Hf. apply (Habove j f); [lia | exact Hf].
      * lia.
      * exists t'. cbn [run step]. rewrite frameexit_positive by lia. cbn [bind].
        split; [exact Hrun |]. split; [exact Hlen' |]. split; [exact Hcnt' |].
        split; [exact Hlua' |]. split; [exact Habove' |]. exact Hbelow'.
Qed.

Lemma native_run_le_peak (ops : list engine_op) :
  forall open open' : nat,
    native_run ops open = Some open' -> (open' <= peak ops open)%nat.
Proof.
  induction ops as [| o ops IH]; intros open open' Hnat.
  - cbn [native_run] in Hnat. injection Hnat as <-. cbn [peak]. lia.
  - destruct o as [frame | ln | |]; cbn [native_run] in Hnat; cbn [peak];
      [| | | discriminate].
    + destruct (frame_type_eqb (type frame) PALLENE_TRACER_FRAME_TYPE_C); [| discriminate].
      specialize (IH _ _ Hnat). lia.
    + specialize (IH _ _ Hnat). lia.
    + destruct open as [| open]; [discriminate |].
      specialize (IH _ _ Hnat). cbn [Nat.pred]. lia.
Qed.

Lemma excursion_is_trimmed (s : pt_fnstack_t) (fn : lua_CFunction)
    (ops : list engine_op) (open : nat) :
  Z.of_nat (length (stack s)) = PALLENE_TRACER_MAX_CALLSTACK ->
  0 <= count s ->
  native_run ops 0 = Some open ->
  count s + 1 + Z.of_nat (peak ops 0) <= PALLENE_TRACER_MAX_CALLSTACK ->
  exists s',
    run (OpPush (PALLENE_TRACER_LUA_FRAME fn) :: ops ++ [OpFinalizer]) s = Ok s' /\
    count s' = count s /\
    length (stack s') = length (stack s) /\
    (forall j : nat, Z.of_nat j < count s -> stack s' !! j = stack s !! j).
Proof.
  intros Hlen Hpos Hnat Hpeak. pose proof MAX_CALLSTACK_val as Hmax.
  pose proof (peak_ge ops 0) as Hge.
  pose proof (native_run_le_peak ops 0 open Hnat) as Hopen.
  assert (Hstep : pallene_tracer_frameenter s (PALLENE_TRACER_LUA_FRAME fn) =
            Ok {| stack := <[Z.to_nat (count s) := PALLENE_TRACER_LUA_FRAME fn]> (stack s);
                  count := count s + 1 |}).
  { apply frameenter_below_capacity; [split; [exact Hlen |] |]; unfold INT_MAX; lia. }
  destruct (native_run_keeps_boundary (count s) ops Hpos
              {| stack := <[Z.to_nat (count s) := PALLENE_TRACER_LUA_FRAME fn]> (stack s);
                 count := count s + 1 |} 0 open Hnat)
    as [t' [Hrun [Hlen' [Hcnt' [Hlua' [Habove' Hbelow']]]]]]; cbn [stack count].
  - rewrite length_insert. exact Hlen.
  - lia.
  - eexists. split; [apply list_lookup_insert_eq; lia | reflexivity].
  - intros j f Hj. lia.
  - exact Hpeak.
  - assert (Htop : topmost_lua t' (count s)).
    { split; [lia |]. split; [exact Hlua' | exact Habove']. }
    pose proof (finalizer_found t' (count s) Htop ltac:(lia)) as Hfin.
    eexists. cbn [run step]. rewrite Hstep. cbn [bind].
    rewrite run_app, Hrun. cbn [bind run step].
    unfold finalizer_result. rewrite Hfin. cbn [bind].
    split; [reflexivity |]. cbn [stack count].
    split; [reflexivity |]. split; [lia |].
    intros j Hj. rewrite Hbelow' by exact Hj. cbn [stack].
    apply list_lookup_insert_ne. lia.
Qed.

(** X4: the host calls into native code ([PALLENE_TRACER_LUA_FRAME] pushed),
    the native code calls C functions, sets lines and returns from some of
    the calls, all within the capacity of the block, and is cut short
    there: one run of the finalizer brings [count] back to what it was
    before the host's call, with every frame below untouched. *)
Theorem finalizer_undoes_excursion (s : pt_fnstack_t) (fn : lua_CFunction)
    (ops : list engine_op) (open : nat) :
  Z.of_nat (length (stack s)) = PALLENE_TRACER_MAX_CALLSTACK ->
  0 <= count s ->
  native_run ops 0 = Some open ->
  count s + 1 + Z.of_nat (peak ops 0) <= PALLENE_TRACER_MAX_CALLSTACK ->
  exists s',
    run (OpPush (PALLENE_TRACER_LUA_FRAME fn) :: ops ++ [OpFinalizer]) s = Ok s' /\
    count s' = count s /\
    length (stack s') = length (stack s) /\
    (forall j : nat, Z.of_nat j < count s -> stack s' !! j = stack s !! j).
Proof. apply excursion_is_trimmed. Qed.

Lemma finalizer_undoes_excursion_witness :
  exists s',
    run (OpPush (PALLENE_TRACER_LUA_FRAME (fn_extern 1))
           :: [OpSetLine 3; OpPush sample_c_frame; OpSetLine 9; OpPush sample_c_frame; OpPop;
               OpSetLine 10]
           ++ [OpFinalizer])
        one_frame_stack = Ok s' /\
    count s' = count one_frame_stack /\
    length (stack s') = length (stack one_frame_stack) /\
    (forall j : nat, Z.of_nat j < count one_frame_stack ->
                     stack s' !! j = stack one_frame_stack !! j).
Proof.
  apply (finalizer_undoes_excursion one_frame_stack (fn_extern 1)
           [OpSetLine 3; OpPush sample_c_frame; OpSetLine 9; OpPush sample_c_frame; OpPop;
            OpSetLine 10] 1).
  - unfold one_frame_stack. cbn [stack]. rewrite length_insert. apply wf_fresh_fnstack.
  - cbn [count one_frame_stack]. lia.
  - reflexivity.
  - cbn [count one_frame_stack peak Nat.max Nat.pred]. rewrite MAX_CALLSTACK_val. lia.
Defined.

(** * Further properties of the initialisation and of the callbacks *)

Import LuaCall.

(** ** The state the first call leaves *)

Lemma init_first_call_state (L : lua_State) (mem : nat -> pt_frame_t) :
  rawget (registry L) PALLENE_TRACER_CONTAINER_ENTRY = LNil ->
  exists p L1 gc fo mt,
    pallene_tracer_init true mem L = Ok (Some p, L1) /\
    udatas L !! p = None /\
    udatas L1 = <[p := {| block := Some (fresh_fnstack mem); udata_meta := Some gc |}]>
                  (udatas L) /\
    registry L1 = <[PALLENE_TRACER_CONTAINER_ENTRY := LUserdata p]>
                    (<[PALLENE_TRACER_FINALIZER_ENTRY := LTable fo]> (registry L)) /\
    vstack L1 = LTable fo :: LNil :: vstack L /\
    tables L1 !! gc =
      Some {| fields := <["__gc" := LCFunction fn_pallene_tracer_free_resources]> ∅;
              table_meta := None |} /\
    tables L1 !! fo = Some {| fields := ∅; table_meta := Some mt |} /\
    tables L1 !! mt =
      Some {| fields := <["__close" :=
                            LCClosure fn_pallene_tracer_finalizer [LUserdata p]]> ∅;
              table_meta := None |} /\
    (forall t tb, tables L !! t = Some tb -> tables L1 !! t = Some tb).
Proof.
  intros Hnil. unfold pallene_tracer_init.
  lua_step lua_getfield_registry. rewrite Hnil.
  lua_step lua_isnil_top. cbn iota.
  erewrite bindL_ok by (unfold lua_newuserdata; reflexivity).
  cbn [registry tables udatas vstack].
  set (p := fresh (dom (udatas L))).
  assert (Hp : udatas L !! p = None).
  { apply not_elem_of_dom. apply is_fresh. }
  lua_step store_fnstack_live. cbn [udata_meta].
  erewrite bindL_ok by (unfold lua_newtable; reflexivity).
  cbn [registry tables udatas vstack].
  set (t1 := fresh (dom (tables L))).
  assert (Hold1 : forall t tb, tables L !! t = Some tb -> t1 <> t).
  { intros t tb Ht Heq. apply (is_fresh (dom (tables L))). fold t1. rewrite Heq.
    apply elem_of_dom. eauto. }
  erewrite bindL_ok by (unfold lua_pushcfunction, push; reflexivity).
  cbn [registry tables udatas vstack].
  lua_step lua_setfield_second. cbn [fields table_meta].
  lua_step lua_setmetatable_userdata. cbn [block].
  rewrite insert_insert_eq.
  erewrite bindL_ok by (unfold lua_newtable; reflexivity).
  cbn [registry tables udatas vstack].
  match goal with
  | |- context [fresh (dom ?m)] => set (tables2 := m); set (t2 := fresh (dom tables2))
  end.
  assert (Hdom2 : forall t, t2 = t -> tables2 !! t = None).
  { intros t <-. apply not_elem_of_dom. apply is_fresh. }
  erewrite bindL_ok by (unfold lua_newtable; reflexivity).
  cbn [registry tables udatas vstack].
  match goal with
  | |- context [fresh (dom ?m)] => set (tables3 := m); set (t3 := fresh (dom tables3))
  end.
  assert (Hdom3 : forall t, t3 = t -> tables3 !! t = None).
  { intros t <-. apply not_elem_of_dom. apply is_fresh. }
  assert (Hne : t3 <> t2).
  { intros Heq. specialize (Hdom3 t2 Heq). unfold tables3 in Hdom3.
    rewrite lookup_insert_eq in Hdom3. discriminate. }
  lua_step lua_pushvalue_third.
  lua_step lua_pushcclosure_one.
  lua_step lua_setfield_second. cbn [fields table_meta].
  rewrite insert_insert_eq.
  erewrite bindL_ok
    by (eapply lua_setmetatable_table; cbn [registry tables udatas vstack];
        [reflexivity
        | rewrite lookup_insert_ne by exact Hne; unfold tables3; apply lookup_insert_eq]).
  cbn [registry tables udatas vstack fields].
  lua_step lua_setfield_registry.
  lua_step lua_setfield_registry.
  lua_step lua_getfield_registry.
  unfold ret, rawset, rawget.
  rewrite lookup_insert_ne by exact entries_differ.
  rewrite lookup_insert_eq. cbn [default from_option id].
  assert (Hgc : tables2 !! t1 =
                Some {| fields := <["__gc" := LCFunction fn_pallene_tracer_free_resources]> ∅;
                        table_meta := None |}).
  { unfold tables2. apply lookup_insert_eq. }
  assert (Hne21 : t2 <> t1).
  { intros Heq. rewrite (Hdom2 t1 Heq) in Hgc. discriminate. }
  assert (Hne31 : t3 <> t1).
  { intros Heq. specialize (Hdom3 t1 Heq). unfold tables3 in Hdom3.
    rewrite lookup_insert_ne in Hdom3 by exact Hne21. rewrite Hgc in Hdom3. discriminate. }
  eexists p, _, t1, t2, t3.
  split; [reflexivity |]. cbn [registry tables udatas vstack].
  split; [exact Hp |].
  split; [rewrite !insert_insert_eq; reflexivity |].
  split; [reflexivity |].
  split; [reflexivity |].
  split.
  { rewrite lookup_insert_ne by exact Hne21. rewrite lookup_insert_ne by exact Hne31.
    unfold tables3. rewrite lookup_insert_ne by exact Hne21. exact Hgc. }
  split; [apply lookup_insert_eq |].
  split; [rewrite lookup_insert_ne by exact (not_eq_sym Hne); apply lookup_insert_eq |].
  intros t tb Ht.
  pose proof (Hold1 t tb Ht) as Hn1.
  assert (Ht2 : tables2 !! t = Some tb).
  { unfold tables2. rewrite lookup_insert_ne by exact Hn1. exact Ht. }
  assert (Hn2 : t2 <> t).
  { intros Heq. rewrite (Hdom2 t Heq) in Ht2. discriminate. }
  assert (Hn3 : t3 <> t).
  { intros Heq. specialize (Hdom3 t Heq). unfold tables3 in Hdom3.
    rewrite lookup_insert_ne in Hdom3 by exact Hn2. rewrite Ht2 in Hdom3. discriminate. }
  rewrite lookup_insert_ne by exact Hn2. rewrite lookup_insert_ne by exact Hn3.
  unfold tables3. rewrite lookup_insert_ne by exact Hn2. exact Ht2.
Qed.

Lemma init_later_call_registry (L : lua_State) (mem : nat -> pt_frame_t) (p : addr) :
  registry L !! PALLENE_TRACER_CONTAINER_ENTRY = Some (LUserdata p) ->
  pallene_tracer_init true mem L =
    Ok (Some p, {| registry := registry L; tables := tables L; udatas := udatas L;
                   vstack := rawget (registry L) PALLENE_TRACER_FINALIZER_ENTRY
                               :: LUserdata p :: vstack L |}).
Proof.
  intros Hreg. unfold pallene_tracer_init.
  lua_step lua_getfield_registry.
  unfold rawget at 1. rewrite Hreg. cbn [default from_option id].
  lua_step lua_isnil_top. cbn iota.
  lua_step lua_touserdata_top.
  lua_step lua_getfield_registry.
  reflexivity.
Qed.

(** ** How the callbacks are wired *)

(** X5: the first call of [pallene_tracer_init] registers the userdatum of
    the stack and a finalizer object under the two reserved keys; closing
    the finalizer object calls [_pallene_tracer_finalizer] with that
    userdatum as its upvalue 1, and collecting the userdatum calls
    [_pallene_tracer_free_resources]; every other registry entry, userdatum
    and table of the host is left as it was. *)
Theorem init_wires_callbacks (L : lua_State) (mem : nat -> pt_frame_t) :
  rawget (registry L) PALLENE_TRACER_CONTAINER_ENTRY = LNil ->
  exists p L1 fo,
    pallene_tracer_init true mem L = Ok (Some p, L1) /\
    registry L1 !! PALLENE_TRACER_CONTAINER_ENTRY = Some (LUserdata p) /\
    registry L1 !! PALLENE_TRACER_FINALIZER_ENTRY = Some (LTable fo) /\
    metamethod L1 (LTable fo) "__close" =
      LCClosure fn_pallene_tracer_finalizer [LUserdata p] /\
    metamethod L1 (LUserdata p) "__gc" = LCFunction fn_pallene_tracer_free_resources /\
    (forall k, k <> PALLENE_TRACER_CONTAINER_ENTRY -> k <> PALLENE_TRACER_FINALIZER_ENTRY ->
               registry L1 !! k = registry L !! k) /\
    (forall q u, udatas L !! q = Some u -> udatas L1 !! q = Some u) /\
    (forall t tb, tables L !! t = Some tb -> tables L1 !! t = Some tb).
Proof.
  intros Hnil.
  destruct (init_first_call_state L mem Hnil)
    as (p & L1 & gc & fo & mt & Hinit & Hnew & Hud & Hreg & Hvs & Hgc & Hfo & Hmt & Hold).
  exists p, L1, fo. split; [exact Hinit |].
  split; [rewrite Hreg; apply lookup_insert_eq |].
  split; [rewrite Hreg; rewrite lookup_insert_ne by exact entries_differ;
          apply lookup_insert_eq |].
  split; [unfold metamethod; rewrite Hfo; cbn [table_meta]; rewrite Hmt; cbn [fields];
          unfold rawget; rewrite lookup_insert_eq; reflexivity |].
  split; [unfold metamethod; rewrite Hud, lookup_insert_eq; cbn [udata_meta];
          rewrite Hgc; cbn [fields]; unfold rawget; rewrite lookup_insert_eq;
          reflexivity |].
  split; [intros k Hk1 Hk2; rewrite Hreg; rewrite !lookup_insert_ne by congruence;
          reflexivity |].
  split; [| exact Hold].
  intros q u Hq. rewrite Hud. rewrite lookup_insert_ne by congruence. exact Hq.
Qed.

Lemma init_wires_callbacks_witness :
  exists p L1 fo,
    pallene_tracer_init true sample_mem empty_state = Ok (Some p, L1) /\
    registry L1 !! PALLENE_TRACER_CONTAINER_ENTRY = Some (LUserdata p) /\
    registry L1 !! PALLENE_TRACER_FINALIZER_ENTRY = Some (LTable fo) /\
    metamethod L1 (LTable fo) "__close" =
      LCClosure fn_pallene_tracer_finalizer [LUserdata p] /\
    metamethod L1 (LUserdata p) "__gc" = LCFunction fn_pallene_tracer_free_resources /\
    (forall k, k <> PALLENE_TRACER_CONTAINER_ENTRY -> k <> PALLENE_TRACER_FINALIZER_ENTRY ->
               registry L1 !! k = registry empty_state !! k) /\
    (forall q u, udatas empty_state !! q = Some u -> udatas L1 !! q = Some u) /\
    (forall t tb, tables empty_state !! t = Some tb -> tables L1 !! t = Some tb).
Proof.
  apply (init_wires_callbacks empty_state sample_mem). reflexivity.
Defined.

(** X6: every call of [pallene_tracer_init] leaves two more values on the
    value stack, the finalizer object on top; below it is nil after the
    first call and the userdatum of the stack after a later one, and the
    finalizer object is the same each time. *)
Theorem init_pushes_two_values (L : lua_State) (mem : nat -> pt_frame_t) :
  rawget (registry L) PALLENE_TRACER_CONTAINER_ENTRY = LNil ->
  exists p L1 fo,
    pallene_tracer_init true mem L = Ok (Some p, L1) /\
    vstack L1 = LTable fo :: LNil :: vstack L /\
    (forall L' mem', registry L' = registry L1 ->
       exists L'', pallene_tracer_init true mem' L' = Ok (Some p, L'') /\
                   vstack L'' = LTable fo :: LUserdata p :: vstack L').
Proof.
  intros Hnil.
  destruct (init_first_call_state L mem Hnil)
    as (p & L1 & gc & fo & mt & Hinit & Hnew & Hud & Hreg & Hvs & _).
  exists p, L1, fo. split; [exact Hinit |]. split; [exact Hvs |].
  intros L' mem' Hsame. eexists. split.
  - apply init_later_call_registry. rewrite Hsame, Hreg. apply lookup_insert_eq.
  - cbn [vstack]. unfold rawget. rewrite Hsame, Hreg.
    rewrite lookup_insert_ne by exact entries_differ.
    rewrite lookup_insert_eq. reflexivity.
Qed.

Lemma init_pushes_two_values_witness :
  exists p L1 fo,
    pallene_tracer_init true sample_mem empty_state = Ok (Some p, L1) /\
    vstack L1 = LTable fo :: LNil :: vstack empty_state /\
    (forall L' mem', registry L' = registry L1 ->
       exists L'', pallene_tracer_init true mem' L' = Ok (Some p, L'') /\
                   vstack L'' = LTable fo :: LUserdata p :: vstack L').
Proof.
  apply (init_pushes_two_values empty_state sample_mem). reflexivity.
Defined.

(** X7: when the reserved key holds a value that is neither nil nor a
    userdatum, [pallene_tracer_init] returns NULL; it allocates nothing and
    writes nothing to the registry. *)
Theorem init_on_foreign_value (L : lua_State) (mem : nat -> pt_frame_t) (v : lua_value) :
  registry L !! PALLENE_TRACER_CONTAINER_ENTRY = Some v ->
  v <> LNil ->
  (forall p, v <> LUserdata p) ->
  pallene_tracer_init true mem L =
    Ok (None, {| registry := registry L; tables := tables L; udatas := udatas L;
                 vstack := rawget (registry L) PALLENE_TRACER_FINALIZER_ENTRY
                             :: v :: vstack L |}).
Proof.
  intros Hreg Hnil Hud. unfold pallene_tracer_init.
  lua_step lua_getfield_registry.
  unfold rawget at 1. rewrite Hreg. cbn [default from_option id].
  lua_step lua_isnil_top.
  destruct v as [| p | t | f | f ups]; try contradiction; cbn iota.
  - exfalso. apply (Hud p). reflexivity.
  - lua_step lua_touserdata_top. lua_step lua_getfield_registry. reflexivity.
  - lua_step lua_touserdata_top. lua_step lua_getfield_registry. reflexivity.
  - lua_step lua_touserdata_top. lua_step lua_getfield_registry. reflexivity.
Qed.

Lemma init_on_foreign_value_witness :
  pallene_tracer_init true sample_mem foreign_state =
    Ok (None,
        {| registry := registry foreign_state; tables := tables foreign_state;
           udatas := udatas foreign_state;
           vstack := rawget (registry foreign_state) PALLENE_TRACER_FINALIZER_ENTRY
                       :: LCFunction (fn_extern 1) :: vstack foreign_state |}).
Proof.
  apply (init_on_foreign_value foreign_state sample_mem (LCFunction (fn_extern 1))).
  - apply lookup_insert_eq.
  - discriminate.
  - discriminate.
Defined.

(** ** The callbacks at work *)

Lemma through_live (p : addr) (op : pt_fnstack_t -> result pt_fnstack_t)
    (L : lua_State) (u : lua_udata) (s : pt_fnstack_t) :
  udatas L !! p = Some u -> block u = Some s ->
  through (Some p) op L =
    match op s with
    | Ok s' => Ok (tt, {| registry := registry L; tables := tables L;
                          udatas := <[p := {| block := Some s';
                                              udata_meta := udata_meta u |}]> (udatas L);
                          vstack := vstack L |})
    | Fault e => Fault e
    end.
Proof.
  intros Hu Hb. unfold through, fnstack_at. rewrite Hu, Hb.
  destruct (op s) as [s' | e]; [| reflexivity].
  unfold store_fnstack. rewrite Hu. reflexivity.
Qed.

(** Closing a value whose [__close] is the finalizer closure over the
    userdatum at [p]: the finalizer runs on the stack of that userdatum, and
    the value stack of the caller is as before. *)
Lemma close_value_runs_finalizer (L : lua_State) (fo mt p : addr) (tb_fo tb_mt : lua_table)
    (u : lua_udata) (s : pt_fnstack_t) :
  tables L !! fo = Some tb_fo -> table_meta tb_fo = Some mt ->
  tables L !! mt = Some tb_mt ->
  fields tb_mt !! "__close" = Some (LCClosure fn_pallene_tracer_finalizer [LUserdata p]) ->
  udatas L !! p = Some u -> block u = Some s ->
  close_value (LTable fo) L =
    match finalizer_result s with
    | Ok s' => Ok (0, {| registry := registry L; tables := tables L;
                         udatas := <[p := {| block := Some s';
                                             udata_meta := udata_meta u |}]> (udatas L);
                         vstack := vstack L |})
    | Fault e => Fault e
    end.
Proof.
  intros Hfo Hmeta Hmt Hclose Hu Hb.
  unfold close_value, metamethod. rewrite Hfo, Hmeta, Hmt.
  unfold rawget. rewrite Hclose. cbn [default from_option id call_value].
  unfold in_frame, _pallene_tracer_finalizer_cfunction.
  unfold bindL at 1. unfold lua_touserdata_in, lua_upvalueindex.
  change (LUA_REGISTRYINDEX - 1 <? LUA_REGISTRYINDEX) with true. cbn iota.
  change (Z.to_nat (LUA_REGISTRYINDEX - (LUA_REGISTRYINDEX - 1) - 1)) with 0%nat.
  cbn [lookup list_lookup].
  unfold bindL at 1.
  rewrite (through_live p finalizer_result _ u s) by (cbn [udatas]; assumption).
  destruct (finalizer_result s) as [s' | e]; reflexivity.
Qed.

(** Collecting a userdatum whose [__gc] is [_pallene_tracer_free_resources]:
    the block of the userdatum is freed. *)
Lemma collect_value_frees (L : lua_State) (gc p : addr) (tb_gc : lua_table)
    (u : lua_udata) (s : pt_fnstack_t) :
  udatas L !! p = Some u -> udata_meta u = Some gc -> block u = Some s ->
  tables L !! gc = Some tb_gc ->
  fields tb_gc !! "__gc" = Some (LCFunction fn_pallene_tracer_free_resources) ->
  collect_value (LUserdata p) L =
    match free_stack s with
    | Ok s' => Ok (0, {| registry := registry L; tables := tables L;
                         udatas := <[p := {| block := Some s';
                                             udata_meta := udata_meta u |}]> (udatas L);
                         vstack := vstack L |})
    | Fault e => Fault e
    end.
Proof.
  intros Hu Hmeta Hb Hgc Hfield.
  unfold collect_value, metamethod. rewrite Hu, Hmeta, Hgc.
  unfold rawget. rewrite Hfield. cbn [default from_option id call_value].
  unfold in_frame, _pallene_tracer_free_resources.
  unfold bindL at 1. unfold lua_touserdata, index2value.
  change (0 <? 1) with true. cbn iota. cbn [vstack rev app].
  change (Z.to_nat (1 - 1)) with 0%nat. cbn [lookup list_lookup].
  unfold bindL at 1.
  rewrite (through_live p free_stack _ u s) by (cbn [udatas]; assumption).
  destruct (free_stack s) as [s' | e]; rewrite ?Hmeta; reflexivity.
Qed.

Lemma close_after_run (L1 : lua_State) (mem : nat -> pt_frame_t) (p gc fo mt : addr)
    (ops : list engine_op) :
  udatas L1 !! p = Some {| block := Some (fresh_fnstack mem); udata_meta := Some gc |} ->
  tables L1 !! fo = Some {| fields := ∅; table_meta := Some mt |} ->
  tables L1 !! mt =
    Some {| fields := <["__close" :=
                          LCClosure fn_pallene_tracer_finalizer [LUserdata p]]> ∅;
            table_meta := None |} ->
  (through (Some p) (run ops) ;; close_value (LTable fo)) L1 =
  (through (Some p) (run (ops ++ [OpFinalizer])) ;; ret 0) L1.
Proof.
  intros Hu Hfo Hmt. unfold bindL.
  rewrite (through_live p (run ops) L1 _ (fresh_fnstack mem) Hu eq_refl).
  rewrite (through_live p (run (ops ++ [OpFinalizer])) L1 _ (fresh_fnstack mem) Hu eq_refl).
  rewrite run_app.
  destruct (run ops (fresh_fnstack mem)) as [s1 | e]; cbn [bind]; [| reflexivity].
  erewrite close_value_runs_finalizer; cycle 1.
  - exact Hfo.
  - reflexivity.
  - exact Hmt.
  - cbn [fields]. apply lookup_insert_eq.
  - cbn [udatas]. apply lookup_insert_eq.
  - reflexivity.
  - cbn [run step registry tables udatas vstack udata_meta].
    destruct (finalizer_result s1) as [s2 | e]; cbn [bind]; [| reflexivity].
    rewrite insert_insert_eq. reflexivity.
Qed.

(** X8: on the state [pallene_tracer_init] leaves, whatever the engine has
    done to the stack through the returned pointer, closing the finalizer
    object that init pushed does what one more run of the finalizer on that
    stack does, and returns 0 results: it fails where the finalizer fails,
    and otherwise leaves the trimmed stack in the userdatum. *)
Theorem close_runs_the_finalizer (L : lua_State) (mem : nat -> pt_frame_t) :
  rawget (registry L) PALLENE_TRACER_CONTAINER_ENTRY = LNil ->
  exists p L1 fo,
    pallene_tracer_init true mem L = Ok (Some p, L1) /\
    vstack L1 = LTable fo :: LNil :: vstack L /\
    (forall ops,
       (through (Some p) (run ops) ;; close_value (LTable fo)) L1 =
       (through (Some p) (run (ops ++ [OpFinalizer])) ;; ret 0) L1).
Proof.
  intros Hnil.
  destruct (init_first_call_state L mem Hnil)
    as (p & L1 & gc & fo & mt & Hinit & Hnew & Hud & Hreg & Hvs & Hgc & Hfo & Hmt & Hold).
  exists p, L1, fo. split; [exact Hinit |]. split; [exact Hvs |].
  intros ops. apply (close_after_run L1 mem p gc fo mt ops).
  - rewrite Hud. apply lookup_insert_eq.
  - exact Hfo.
  - exact Hmt.
Qed.

Lemma close_runs_the_finalizer_witness :
  exists p L1 fo,
    pallene_tracer_init true sample_mem empty_state = Ok (Some p, L1) /\
    vstack L1 = LTable fo :: LNil :: vstack empty_state /\
    (forall ops,
       (through (Some p) (run ops) ;; close_value (LTable fo)) L1 =
       (through (Some p) (run (ops ++ [OpFinalizer])) ;; ret 0) L1).
Proof.
  apply (close_runs_the_finalizer empty_state sample_mem). reflexivity.
Defined.

(** X9: on the state [pallene_tracer_init] leaves, after any run of the
    engine that returned, collecting the userdatum frees its block and
    leaves [count], the registry, the tables and the value stack as they
    are; from then on a push below the capacity writes through a pointer
    with no block behind it, and a second collection frees a block already
    freed. *)
Theorem collect_frees_the_block (L : lua_State) (mem : nat -> pt_frame_t)
    (ops : list engine_op) (s1 : pt_fnstack_t) :
  rawget (registry L) PALLENE_TRACER_CONTAINER_ENTRY = LNil ->
  run ops (fresh_fnstack mem) = Ok s1 ->
  exists p L1 L2 L3,
    pallene_tracer_init true mem L = Ok (Some p, L1) /\
    through (Some p) (run ops) L1 = Ok (tt, L2) /\
    collect_value (LUserdata p) L2 = Ok (0, L3) /\
    fnstack_at L3 (Some p) = Some {| stack := []; count := count s1 |} /\
    registry L3 = registry L2 /\ tables L3 = tables L2 /\ vstack L3 = vstack L2 /\
    (forall frame, 0 <= count s1 < PALLENE_TRACER_MAX_CALLSTACK ->
       through (Some p) (fun s => pallene_tracer_frameenter s frame) L3 =
         Fault (OutOfBounds (count s1))) /\
    collect_value (LUserdata p) L3 = Fault NullDeref.
Proof.
  intros Hnil Hrun.
  destruct (init_first_call_state L mem Hnil)
    as (p & L1 & gc & fo & mt & Hinit & Hnew & Hud & Hreg & Hvs & Hgc & Hfo & Hmt & Hold).
  assert (Hu : udatas L1 !! p =
               Some {| block := Some (fresh_fnstack mem); udata_meta := Some gc |}).
  { rewrite Hud. apply lookup_insert_eq. }
  assert (Hfree : free_stack s1 = Ok {| stack := []; count := count s1 |}).
  { pose proof (run_keeps_length ops _ _ Hrun) as Hlen.
    pose proof (length_block mem) as Hblk. cbn [stack fresh_fnstack] in Hlen.
    unfold free_stack. destruct (stack s1) as [| f rest]; [| reflexivity].
    cbn [length] in Hlen. lia. }
  exists p, L1. eexists. eexists.
  split; [exact Hinit |].
  split.
  { rewrite (through_live p (run ops) L1 _ (fresh_fnstack mem) Hu eq_refl).
    rewrite Hrun. reflexivity. }
  split.
  { erewrite collect_value_frees; cycle 1.
    - cbn [udatas]. apply lookup_insert_eq.
    - reflexivity.
    - reflexivity.
    - exact Hgc.
    - apply lookup_insert_eq.
    - rewrite Hfree. reflexivity. }
  cbn [registry tables vstack udatas fnstack_at].
  split; [rewrite lookup_insert_eq; reflexivity |].
  split; [reflexivity |]. split; [reflexivity |]. split; [reflexivity |].
  split.
  - intros frame Hcnt.
    erewrite through_live; cycle 1.
    + cbn [udatas]. apply lookup_insert_eq.
    + reflexivity.
    + unfold pallene_tracer_frameenter. cbn [count stack].
      destruct (Z.ltb_spec (count s1) PALLENE_TRACER_MAX_CALLSTACK) as [_ | Hge]; [| lia].
      unfold array_write. cbn [length].
      destruct (Z.leb_spec 0 (count s1)) as [_ | Hneg]; [| lia].
      destruct (Z.ltb_spec (count s1) (Z.of_nat 0)) as [Hlt | _]; [lia |].
      reflexivity.
  - erewrite collect_value_frees; cycle 1.
    + cbn [udatas]. apply lookup_insert_eq.
    + reflexivity.
    + reflexivity.
    + exact Hgc.
    + apply lookup_insert_eq.
    + reflexivity.
Qed.

Lemma collect_frees_the_block_witness :
  exists p L1 L2 L3,
    pallene_tracer_init true sample_mem empty_state = Ok (Some p, L1) /\
    through (Some p) (run [OpPush sample_lua_frame]) L1 = Ok (tt, L2) /\
    collect_value (LUserdata p) L2 = Ok (0, L3) /\
    fnstack_at L3 (Some p) = Some {| stack := []; count := count one_frame_stack |} /\
    registry L3 = registry L2 /\ tables L3 = tables L2 /\ vstack L3 = vstack L2 /\
    (forall frame, 0 <= count one_frame_stack < PALLENE_TRACER_MAX_CALLSTACK ->
       through (Some p) (fun s => pallene_tracer_frameenter s frame) L3 =
         Fault (OutOfBounds (count one_frame_stack))) /\
    collect_value (LUserdata p) L3 = Fault NullDeref.
Proof.
  apply (collect_frees_the_block empty_state sample_mem [OpPush sample_lua_frame]
           one_frame_stack).
  - reflexivity.
  - cbn [run step]. rewrite frameenter_fresh_one_frame. reflexivity.
Defined.

(** X10: the whole protocol on a new host state: [pallene_tracer_init], the
    frame of a host call pushed through the returned pointer, native calls,
    set-lines and returns within the capacity of the block, then the
    to-be-closed finalizer object going out of scope; the stack in the
    userdatum is back at [count = 0], and the userdatum is still the one
    under the reserved key. *)
Theorem init_enter_close_round_trip (L : lua_State) (mem : nat -> pt_frame_t)
    (fn : lua_CFunction) (ops : list engine_op) (open : nat) :
  rawget (registry L) PALLENE_TRACER_CONTAINER_ENTRY = LNil ->
  native_run ops 0 = Some open ->
  1 + Z.of_nat (peak ops 0) <= PALLENE_TRACER_MAX_CALLSTACK ->
  exists p L1 fo L2 s2,
    pallene_tracer_init true mem L = Ok (Some p, L1) /\
    vstack L1 = LTable fo :: LNil :: vstack L /\
    (through (Some p) (run (OpPush (PALLENE_TRACER_LUA_FRAME fn) :: ops)) ;;
     close_value (LTable fo)) L1 = Ok (0, L2) /\
    fnstack_at L2 (Some p) = Some s2 /\
    count s2 = 0 /\
    registry L2 !! PALLENE_TRACER_CONTAINER_ENTRY = Some (LUserdata p) /\
    vstack L2 = vstack L1.
Proof.
  intros Hnil Hnat Hpeak.
  destruct (init_first_call_state L mem Hnil)
    as (p & L1 & gc & fo & mt & Hinit & Hnew & Hud & Hreg & Hvs & Hgc & Hfo & Hmt & Hold).
  assert (Hu : udatas L1 !! p =
               Some {| block := Some (fresh_fnstack mem); udata_meta := Some gc |}).
  { rewrite Hud. apply lookup_insert_eq. }
  destruct (excursion_is_trimmed (fresh_fnstack mem) fn ops open)
    as [s2 [Hrun [Hcnt _]]].
  - apply wf_fresh_fnstack.
  - cbn [count fresh_fnstack]. lia.
  - exact Hnat.
  - cbn [count fresh_fnstack]. lia.
  - exists p, L1, fo. eexists. exists s2.
    split; [exact Hinit |]. split; [exact Hvs |].
    rewrite (close_after_run L1 mem p gc fo mt _ Hu Hfo Hmt).
    unfold bindL.
    rewrite (through_live p _ L1 _ (fresh_fnstack mem) Hu eq_refl).
    change ((OpPush (PALLENE_TRACER_LUA_FRAME fn) :: ops) ++ [OpFinalizer])
      with (OpPush (PALLENE_TRACER_LUA_FRAME fn) :: ops ++ [OpFinalizer]).
    rewrite Hrun. unfold ret.
    split; [reflexivity |]. cbn [fnstack_at udatas registry vstack].
    split; [rewrite lookup_insert_eq; reflexivity |].
    split; [exact Hcnt |].
    split; [rewrite Hreg; apply lookup_insert_eq | reflexivity].
Qed.

Lemma init_enter_close_round_trip_witness :
  exists p L1 fo L2 s2,
    pallene_tracer_init true sample_mem empty_state = Ok (Some p, L1) /\
    vstack L1 = LTable fo :: LNil :: vstack empty_state /\
    (through (Some p)
       (run (OpPush (PALLENE_TRACER_LUA_FRAME (fn_extern 1))
               :: [OpSetLine 3; OpPush sample_c_frame; OpSetLine 9])) ;;
     close_value (LTable fo)) L1 = Ok (0, L2) /\
    fnstack_at L2 (Some p) = Some s2 /\
    count s2 = 0 /\
    registry L2 !! PALLENE_TRACER_CONTAINER_ENTRY = Some (LUserdata p) /\
    vstack L2 = vstack L1.
Proof.
  apply (init_enter_close_round_trip empty_state sample_mem (fn_extern 1)
           [OpSetLine 3; OpPush sample_c_frame; OpSetLine 9] 1).
  - reflexivity.
  - reflexivity.
  - cbn [peak Nat.max]. rewrite MAX_CALLSTACK_val. lia.
Defined.

(** ** When the inline operations return *)

(** X11: on a block of full size, [pallene_tracer_setline] returns a stack
    exactly when [0 <= count <= capacity]; with a negative [count], or with
    more pushes counted than the block has slots, its write is outside the
    block. *)
Theorem setline_returns_iff (s : pt_fnstack_t) (ln : Z) :
  Z.of_nat (length (stack s)) = PALLENE_TRACER_MAX_CALLSTACK ->
  ((exists s', pallene_tracer_setline s ln = Ok s') <->
   0 <= count s <= PALLENE_TRACER_MAX_CALLSTACK).
Proof.
  intros Hlen. pose proof MAX_CALLSTACK_val as Hmax. split.
  - intros [s' Hset]. unfold pallene_tracer_setline in Hset.
    destruct (Z.eqb_spec (count s) 0) as [Hz | Hnz]; cbn [negb] in Hset; [lia |].
    destruct (int_decr (count s)) as [idx |] eqn:Hidx; [| discriminate].
    cbn [bind] in Hset. apply int_decr_inv in Hidx. subst idx.
    destruct (array_read (stack s) (count s - 1)) as [f |] eqn:Hread; [| discriminate].
    apply array_read_inv in Hread as [Hpos Hf]. apply lookup_lt_Some in Hf. lia.
  - intros Hcnt. destruct (Z.eq_dec (count s) 0) as [Hz | Hnz].
    + exists s. apply setline_empty. exact Hz.
    + destruct (lookup_lt_is_Some_2 (stack s) (Z.to_nat (count s - 1))) as [f Hf]; [lia |].
      eexists. apply (setline_in_bounds s ln f); [lia | exact Hf].
Qed.

Lemma setline_returns_iff_witness :
  (exists s', pallene_tracer_setline one_frame_stack 42 = Ok s') <->
  0 <= count one_frame_stack <= PALLENE_TRACER_MAX_CALLSTACK.
Proof.
  apply (setline_returns_iff one_frame_stack 42).
  unfold one_frame_stack. cbn [stack]. rewrite length_insert. apply wf_fresh_fnstack.
Defined.

(** X12: on a block of full size, [pallene_tracer_frameenter] returns a
    stack exactly when [0 <= count < INT_MAX]: a negative [count] sends the
    write below the block, and at [INT_MAX] the increment has no value to
    give. *)
Theorem frameenter_returns_iff (s : pt_fnstack_t) (frame : pt_frame_t) :
  Z.of_nat (length (stack s)) = PALLENE_TRACER_MAX_CALLSTACK ->
  ((exists s', pallene_tracer_frameenter s frame = Ok s') <->
   0 <= count s < INT_MAX).
Proof.
  intros Hlen. pose proof MAX_CALLSTACK_val as Hmax. split.
  - intros [s' Henter]. unfold pallene_tracer_frameenter in Henter.
    destruct (Z.ltb_spec (count s) PALLENE_TRACER_MAX_CALLSTACK) as [Hroom | Hfull].
    + destruct (array_write (stack s) (count s) frame) as [a |] eqn:Hw; [| discriminate].
      apply array_write_inv in Hw as [Hin _]. unfold INT_MAX. lia.
    + cbn [bind] in Henter.
      destruct (Z.lt_ge_cases (count s) INT_MAX) as [Hlt | Hge]; [lia |].
      rewrite int_incr_overflow in Henter by exact Hge. discriminate.
  - intros Hcnt.
    destruct (frameenter_wf s frame) as [s' [Hs' _]]; [split; [exact Hlen | lia] | lia |].
    exists s'. exact Hs'.
Qed.

Lemma frameenter_returns_iff_witness :
  (exists s', pallene_tracer_frameenter one_frame_stack sample_c_frame = Ok s') <->
  0 <= count one_frame_stack < INT_MAX.
Proof.
  apply (frameenter_returns_iff one_frame_stack sample_c_frame).
  unfold one_frame_stack. cbn [stack]. rewrite length_insert. apply wf_fresh_fnstack.
Defined.
